(** * ComprehensiveStudy: the quiz screen of src/components/ComprehensiveStudy.tsx

    A shallow embedding of the React component: the lesson table, the nine
    [useState] cells, the event handlers, and the controls each render puts
    on the screen, followed by the properties of the quiz progression.

    Conventions.
    - A JavaScript number is a [Z]: every number of the component is a small
      integer (an index, a count of lives, a score in steps of 10).
    - A handler closes over the constants of the render that created it and
      only writes state; it is a function of that snapshot and of the world
      it writes to.
    - A user event reaches a handler through a control of the current
      render: a control that is not rendered, or a disabled button,
      dispatches nothing.  Every event is handled on the render that follows
      the previous event. *)

From Stdlib Require Import ZArith List String Bool Lia Permutation Sorted.
Import ListNotations.
Open Scope Z_scope.

(** ** Data model *)

(** [type: 'choice' | 'translation' | 'dialogue' | 'word-order' | 'video-choice'] *)
Inductive QuestionType : Type :=
| choice
| translation
| dialogue
| word_order
| video_choice.

Definition QuestionType_eqb (a b : QuestionType) : bool :=
  match a, b with
  | choice, choice | translation, translation | dialogue, dialogue
  | word_order, word_order | video_choice, video_choice => true
  | _, _ => false
  end.

(** [correct: string | number] *)
Inductive Answer : Type :=
| Num (n : Z)
| Str (s : string).

(** [answerIndex === question.correct] with [answerIndex : number]: strict
    equality never holds between a number and a string. *)
Definition strict_equals (answerIndex : Z) (correct : Answer) : bool :=
  match correct with
  | Num n => answerIndex =? n
  | Str _ => false
  end.

(** [{ text: string; order: number }].  The objects of a [words] array are
    compared by [Array.prototype.includes], that is by object identity:
    [addr] is the identity of the object literal, one per literal of the
    lesson table. *)
Module Word.
Record t : Type := mk { addr : nat; text : string; order : Z }.

Definition same_object (a b : t) : bool := Nat.eqb (addr a) (addr b).
End Word.

Module Sentence.
Record t : Type := mk { prefix : option string; suffix : option string }.
End Sentence.

(** [interface Question]; an optional field is an [option]. *)
Module Question.
Record t : Type := mk {
    type : QuestionType;
    question : string;
    context : option string;
    options : option (list string);
    correct : Answer;
    explanation : string;
    hint : option string;
    words : option (list Word.t);
    audio : option string;
    video : option string;
    sentence : option Sentence.t
  }.
End Question.

Module Lesson.
Record t : Type := mk { id : Z; title : string; questions : list Question.t }.
End Lesson.

(** [a[i]] for a numeric index: [undefined] ([None]) outside the array. *)
Definition item {A : Type} (a : list A) (i : Z) : option A :=
  if i <? 0 then None else nth_error a (Z.to_nat i).

(** [a.length] *)
Definition length_of {A : Type} (a : list A) : Z := Z.of_nat (List.length a).

(** [orderedWords.includes(word)] *)
Definition includes (a : list Word.t) (word : Word.t) : bool :=
  existsb (fun w => Word.same_object w word) a.

(** ** The lesson table, [const lessons] *)

Module Content.
Open Scope string_scope.

Definition lessons : list Lesson.t :=
    [ Lesson.mk 1 "自己紹介"
        [ Question.mk video_choice
            "動画を見て、適切な言葉を選んでください。"
            None
            (Some ["田中"; "山田"; "佐藤"; "鈴木"])
            (Num 0)
            "動画の人物は「田中」と自己紹介しています。"
            (Some "動画をもう一度見てみましょう。")
            None
            None
            (Some "/videos/self-introduction.mp4")
            (Some (Sentence.mk (Some "はじめまして、私は") (Some "です。")));
          Question.mk word_order
            "単語を並び替えて、正しい文章を作ってください。"
            None
            None
            (Str "私は田中です。")
            "「私は[名前]です」は基本的な自己紹介の形です。"
            (Some "「私は」で始まる文章です。")
            (Some [ Word.mk 0%nat "です。" 3;
                    Word.mk 1%nat "田中" 2;
                    Word.mk 2%nat "私は" 1 ])
            (Some "path-to-audio.mp3")
            None
            None ] ].
End Content.

(** ** Content validation, as the specification words it *)

(** Words sorted ascending by their [order] field (insertion sort; words of
    equal [order] keep their array order). *)
Fixpoint insert_by_order (w : Word.t) (l : list Word.t) : list Word.t :=
  match l with
  | [] => [w]
  | x :: rest =>
      if Word.order w <=? Word.order x then w :: l
      else x :: insert_by_order w rest
  end.

Definition sort_by_order (l : list Word.t) : list Word.t :=
  fold_right insert_by_order [] l.

(** The text fields joined without a separator. *)
Definition concat_text (l : list Word.t) : string :=
  String.concat "" (map Word.text l).

Definition choice_like (ty : QuestionType) : bool :=
  match ty with
  | word_order => false
  | choice | translation | dialogue | video_choice => true
  end.

Definition valid_word_order (q : Question.t) : Prop :=
  exists ws, Question.words q = Some ws /\
             Question.correct q = Str (concat_text (sort_by_order ws)).

Definition valid_choice (q : Question.t) : Prop :=
  exists n opts, Question.correct q = Num n /\
                 Question.options q = Some opts /\
                 0 <= n < length_of opts.

Definition valid_question (q : Question.t) : Prop :=
  (Question.type q = word_order -> valid_word_order q) /\
  (choice_like (Question.type q) = true -> valid_choice q).

Definition by_order (a b : Word.t) : Prop := Word.order a <= Word.order b.


(** ** Session state: the [useState] cells of the component *)

Record State : Type := mkState {
  currentLesson : Z;
  currentQuestion : Z;
  selectedAnswer : option Z;
  showAnswer : bool;
  lives : Z;
  showHint : bool;
  score : Z;
  orderedWords : list Word.t;
  isPlaying : bool
}.

(** What the handlers reach outside the component: the router, through
    [navigate], and the [video] element behind [videoRef]. *)
Inductive MediaCommand : Type :=
| SetCurrentTime (seconds : Z)
| Pause
| Play.

(** The part of the [video] element the handlers read: [videoRef.current.paused]. *)
Record Video : Type := mkVideo { paused : bool }.

Record World : Type := mkWorld {
  state : State;
  navigations : list string;     (* paths passed to [navigate], oldest first *)
  media : list MediaCommand      (* commands sent to the video element, oldest first *)
}.

(** The body of a handler: a sequence of writes.  What a handler reads
    ([score], [lives], [orderedWords], ...) are the constants of the render
    that created it, passed as the snapshot [r]; what it writes is the
    state seen by the next render. *)
Definition Handler : Type := World -> World.

Definition skip : Handler := fun w => w.

Definition seq (a b : Handler) : Handler := fun w => b (a w).

Declare Scope handler_scope.
Delimit Scope handler_scope with handler.
Bind Scope handler_scope with Handler.
Notation "a ;; b" := (seq a b) (at level 61, right associativity) : handler_scope.
Open Scope handler_scope.

Definition update (f : State -> State) : Handler :=
  fun w => mkWorld (f (state w)) (navigations w) (media w).

Definition setCurrentLesson (v : Z) : Handler :=
  update (fun s => mkState v (currentQuestion s) (selectedAnswer s) (showAnswer s)
                     (lives s) (showHint s) (score s) (orderedWords s) (isPlaying s)).

Definition setCurrentQuestion (v : Z) : Handler :=
  update (fun s => mkState (currentLesson s) v (selectedAnswer s) (showAnswer s)
                     (lives s) (showHint s) (score s) (orderedWords s) (isPlaying s)).

Definition setSelectedAnswer (v : option Z) : Handler :=
  update (fun s => mkState (currentLesson s) (currentQuestion s) v (showAnswer s)
                     (lives s) (showHint s) (score s) (orderedWords s) (isPlaying s)).

Definition setShowAnswer (v : bool) : Handler :=
  update (fun s => mkState (currentLesson s) (currentQuestion s) (selectedAnswer s) v
                     (lives s) (showHint s) (score s) (orderedWords s) (isPlaying s)).

Definition setLives (v : Z) : Handler :=
  update (fun s => mkState (currentLesson s) (currentQuestion s) (selectedAnswer s)
                     (showAnswer s) v (showHint s) (score s) (orderedWords s) (isPlaying s)).

Definition setShowHint (v : bool) : Handler :=
  update (fun s => mkState (currentLesson s) (currentQuestion s) (selectedAnswer s)
                     (showAnswer s) (lives s) v (score s) (orderedWords s) (isPlaying s)).

Definition setScore (v : Z) : Handler :=
  update (fun s => mkState (currentLesson s) (currentQuestion s) (selectedAnswer s)
                     (showAnswer s) (lives s) (showHint s) v (orderedWords s) (isPlaying s)).

Definition setOrderedWords (v : list Word.t) : Handler :=
  update (fun s => mkState (currentLesson s) (currentQuestion s) (selectedAnswer s)
                     (showAnswer s) (lives s) (showHint s) (score s) v (isPlaying s)).

Definition setIsPlaying (v : bool) : Handler :=
  update (fun s => mkState (currentLesson s) (currentQuestion s) (selectedAnswer s)
                     (showAnswer s) (lives s) (showHint s) (score s) (orderedWords s) v).

(** [navigate(path)] *)
Definition navigate (path : string) : Handler :=
  fun w => mkWorld (state w) (navigations w ++ [path]) (media w).

Definition video_command (c : MediaCommand) : Handler :=
  fun w => mkWorld (state w) (navigations w) (media w ++ [c]).

(** The state at mount: the arguments of the nine [useState] calls. *)
Definition initial : World :=
  mkWorld (mkState 0 0 None false 3 false 0 [] false) [] [].

(** ** The handlers *)

Section Component.

(** The module-level table the component closes over. *)
Variable lessons : list Lesson.t.

(** [handleNext]; [lesson] is the render's [lessons[currentLesson]] and
    [videoRef] is [videoRef.current] when the handler runs. *)
Definition handleNext (r : State) (lesson : Lesson.t) (videoRef : option Video) : Handler :=
  (if currentQuestion r <? length_of (Lesson.questions lesson) - 1 then
     setCurrentQuestion (currentQuestion r + 1)
   else if currentLesson r <? length_of lessons - 1 then
     setCurrentLesson (currentLesson r + 1) ;;
     setCurrentQuestion 0
   else
     navigate "/") ;;
  setSelectedAnswer None ;;
  setShowAnswer false ;;
  setShowHint false ;;
  setIsPlaying false ;;
  match videoRef with
  | Some _ => video_command (SetCurrentTime 0) ;; video_command Pause
  | None => skip
  end.

(** [handleVideoPlay] *)
Definition handleVideoPlay (videoRef : option Video) : Handler :=
  match videoRef with
  | Some v =>
      if paused v then video_command Play ;; setIsPlaying true
      else video_command Pause ;; setIsPlaying false
  | None => skip
  end.

(** [handleAnswer] *)
Definition handleAnswer (r : State) (question : Question.t) (answerIndex : Z) : Handler :=
  setSelectedAnswer (Some answerIndex) ;;
  setShowAnswer true ;;
  if strict_equals answerIndex (Question.correct question) then
    setScore (score r + 10)
  else
    setLives (lives r - 1).

(** ** The controls of a render *)

(** A [button] element: its [disabled] attribute and its [onClick] closure. *)
Record Button : Type := mkButton { disabled : bool; onClick : Handler }.

(** A user click: a disabled button dispatches nothing. *)
Definition click (b : Button) : Handler :=
  if disabled b then skip else onClick b.

(** An option of a video-choice question:
    [onClick={() => !showAnswer && handleAnswer(index)}], [disabled={showAnswer}]. *)
Definition option_button (r : State) (question : Question.t) (index : Z) : Button :=
  mkButton (showAnswer r)
           (if negb (showAnswer r) then handleAnswer r question index else skip).

(** A word of a word-order question: the closure copies [orderedWords],
    pushes [word] and stores the copy; [disabled={orderedWords.includes(word)}]. *)
Definition word_button (r : State) (word : Word.t) : Button :=
  mkButton (includes (orderedWords r) word)
           (setOrderedWords (orderedWords r ++ [word])).

(** The retry button of the game-over screen. *)
Definition retry_button : Button :=
  mkButton false
           (setLives 3 ;;
            setScore 0 ;;
            setCurrentQuestion 0 ;;
            setCurrentLesson 0 ;;
            setOrderedWords []).

Definition back_button : Button := mkButton false (navigate "/").

Definition video_button (videoRef : option Video) : Button :=
  mkButton false (handleVideoPlay videoRef).

(** [onEnded={() => setIsPlaying(false)}] of the video element. *)
Definition video_onEnded : Button := mkButton false (setIsPlaying false).

Definition hint_button : Button := mkButton false (setShowHint true).

Definition next_button (r : State) (lesson : Lesson.t) (videoRef : option Video) : Button :=
  mkButton false (handleNext r lesson videoRef).

(** The operations under the names the specification gives them. *)
Definition submitAnswer (r : State) (question : Question.t) (index : Z) : Handler :=
  click (option_button r question index).

Definition appendWord (r : State) (word : Word.t) : Handler :=
  click (word_button r word).

Definition reset : Handler := click retry_button.

Definition advance (r : State) (lesson : Lesson.t) (videoRef : option Video) : Handler :=
  click (next_button r lesson videoRef).

(** ** Rendering *)

Inductive Control : Type :=
| RetryButton
| BackButton
| VideoButton
| VideoEnded
| OptionButton (index : nat)
| WordButton (index : nat)
| HintButton
| NextButton.

Definition Control_eqb (a b : Control) : bool :=
  match a, b with
  | RetryButton, RetryButton | BackButton, BackButton
  | VideoButton, VideoButton | VideoEnded, VideoEnded
  | HintButton, HintButton | NextButton, NextButton => true
  | OptionButton i, OptionButton j | WordButton i, WordButton j => Nat.eqb i j
  | _, _ => false
  end.

Definition View : Type := list (Control * Button).

(** [array.map((element, index) => ...)] *)
Fixpoint map_from {A B : Type} (f : A -> nat -> B) (start : nat) (a : list A) : list B :=
  match a with
  | [] => []
  | x :: rest => f x start :: map_from f (S start) rest
  end.

Definition map_indexed {A B : Type} (f : A -> nat -> B) (a : list A) : list B :=
  map_from f 0%nat a.

(** [value?.map(...)]: nothing is rendered for an absent array. *)
Definition optional {A B : Type} (a : option (list A)) (k : list A -> list B) : list B :=
  match a with
  | Some l => k l
  | None => []
  end.

(** A string in a condition: absent and empty strings are falsy. *)
Definition truthy (s : option string) : bool :=
  match s with
  | Some EmptyString | None => false
  | Some _ => true
  end.

(** [renderQuestion] *)
Definition renderQuestion (r : State) (question : Question.t) (videoRef : option Video) : View :=
  match Question.type question with
  | video_choice =>
      [(VideoEnded, video_onEnded); (VideoButton, video_button videoRef)] ++
      optional (Question.options question)
        (map_indexed (fun _ index =>
           (OptionButton index, option_button r question (Z.of_nat index))))
  | word_order =>
      optional (Question.words question)
        (map_indexed (fun word index => (WordButton index, word_button r word)))
  | _ => []
  end.

(** The component function.  [None] is a render that throws: reading
    [lesson.questions] of an undefined lesson, or [question.question] of an
    undefined question.  [video] is the element [videoRef] points to while
    the video of a video-choice question is on the screen. *)
Definition ComprehensiveStudy (r : State) (video : Video) : option View :=
  match item lessons (currentLesson r) with
  | None => None
  | Some lesson =>
      let question := item (Lesson.questions lesson) (currentQuestion r) in
      if lives r =? 0 then
        Some [(RetryButton, retry_button)]
      else
        match question with
        | None => None
        | Some question =>
            let videoRef :=
              match Question.type question with
              | video_choice => Some video
              | _ => None
              end in
            Some ([(BackButton, back_button)] ++
                  renderQuestion r question videoRef ++
                  (if negb (showAnswer r) && truthy (Question.hint question)
                   then [(HintButton, hint_button)] else []) ++
                  (if showAnswer r
                   then [(NextButton, next_button r lesson videoRef)] else []))
        end
  end.

(** The in-progress render read control by control: the button a control
    resolves to, if it is on the screen. *)
Definition button_of (r : State) (lesson : Lesson.t) (question : Question.t)
    (videoRef : option Video) (c : Control) : option Button :=
  match c with
  | RetryButton => None
  | BackButton => Some back_button
  | VideoEnded =>
      match Question.type question with
      | video_choice => Some video_onEnded
      | _ => None
      end
  | VideoButton =>
      match Question.type question with
      | video_choice => Some (video_button videoRef)
      | _ => None
      end
  | OptionButton k =>
      match Question.type question, Question.options question with
      | video_choice, Some opts =>
          if (k <? List.length opts)%nat
          then Some (option_button r question (Z.of_nat k)) else None
      | _, _ => None
      end
  | WordButton k =>
      match Question.type question, Question.words question with
      | word_order, Some ws => option_map (word_button r) (nth_error ws k)
      | _, _ => None
      end
  | HintButton =>
      if negb (showAnswer r) && truthy (Question.hint question)
      then Some hint_button else None
  | NextButton =>
      if showAnswer r then Some (next_button r lesson videoRef) else None
  end.

(** ** The event loop *)

(** Modelled from the spec: the router collaborator.  The route table and
    the router are not part of this file; the specification has [navigate]
    leave the quiz screen (state Completed, "no further operations
    defined"), so the component is on the screen exactly while no
    navigation has been requested. *)
Definition mounted (w : World) : bool :=
  match navigations w with
  | [] => true
  | _ :: _ => false
  end.

(** What is on the screen: nothing once the screen was left. *)
Definition screen (w : World) (video : Video) : option View :=
  if mounted w then ComprehensiveStudy (state w) video else None.

Fixpoint lookup (c : Control) (v : View) : option Button :=
  match v with
  | [] => None
  | (c', b) :: rest => if Control_eqb c c' then Some b else lookup c rest
  end.

(** One event from outside: the control it targets and what the video
    element reads at that moment. *)
Record Input : Type := mkInput { target : Control; video_now : Video }.

(** Each event is handled by the closures of the render that follows the
    previous event; an event on a control that is not on the screen
    dispatches nothing. *)
Definition step (w : World) (i : Input) : World :=
  match screen w (video_now i) with
  | None => w
  | Some view =>
      match lookup (target i) view with
      | Some b => click b w
      | None => w
      end
  end.

Definition run (inputs : list Input) (w : World) : World :=
  fold_left step inputs w.

(** ** Quantities the properties speak about *)

(** The coarse states of the specification. *)
Inductive Phase : Type :=
| InProgress
| GameOver
| Completed.

Definition phase (w : World) : Phase :=
  if negb (mounted w) then Completed
  else if lives (state w) =? 0 then GameOver
  else InProgress.

(** The render is the game-over screen: the retry button and nothing else. *)
Definition shows_game_over (w : World) (video : Video) : Prop :=
  screen w video = Some [(RetryButton, retry_button)].

(** [i] is a click on an option that is on the screen, enabled, and the
    correct one. *)
Definition correct_answer_submitted (w : World) (i : Input) : bool :=
  match target i, item lessons (currentLesson (state w)) with
  | OptionButton k, Some lesson =>
      match item (Lesson.questions lesson) (currentQuestion (state w)) with
      | Some question =>
          mounted w && negb (lives (state w) =? 0) && negb (showAnswer (state w)) &&
          QuestionType_eqb (Question.type question) video_choice &&
          match Question.options question with
          | Some opts => (k <? List.length opts)%nat
          | None => false
          end &&
          strict_equals (Z.of_nat k) (Question.correct question)
      | None => false
      end
  | _, _ => false
  end.

(** [i] is a click on the retry button while the game-over screen shows. *)
Definition reset_requested (w : World) (i : Input) : bool :=
  match target i, item lessons (currentLesson (state w)) with
  | RetryButton, Some _ => mounted w && (lives (state w) =? 0)
  | _, _ => false
  end.

(** The number of correct answers submitted since the last reset (or since
    the start), counted along the events; [n] is the count so far. *)
Fixpoint correct_since_reset (inputs : list Input) (w : World) (n : Z) : Z :=
  match inputs with
  | [] => n
  | i :: rest =>
      correct_since_reset rest (step w i)
        (if reset_requested w i then 0
         else if correct_answer_submitted w i then n + 1
         else n)
  end.

(** ** The transitions of the screen *)

(** The handlers the in-progress render of [question] offers on world [w]. *)
Inductive Offered (w : World) (lesson : Lesson.t) (question : Question.t) : Handler -> Prop :=
| O_back :
    Offered w lesson question (navigate "/")
| O_video v :
    Question.type question = video_choice ->
    Offered w lesson question (handleVideoPlay (Some v))
| O_ended :
    Question.type question = video_choice ->
    Offered w lesson question (setIsPlaying false)
| O_answer opts k :
    Question.type question = video_choice ->
    Question.options question = Some opts ->
    (k < List.length opts)%nat ->
    showAnswer (state w) = false ->
    Offered w lesson question (handleAnswer (state w) question (Z.of_nat k))
| O_word ws k word :
    Question.type question = word_order ->
    Question.words question = Some ws ->
    nth_error ws k = Some word ->
    includes (orderedWords (state w)) word = false ->
    Offered w lesson question (setOrderedWords (orderedWords (state w) ++ [word]))
| O_hint :
    showAnswer (state w) = false ->
    truthy (Question.hint question) = true ->
    Offered w lesson question (setShowHint true)
| O_next videoRef :
    showAnswer (state w) = true ->
    (Question.type question <> video_choice -> videoRef = None) ->
    Offered w lesson question (handleNext (state w) lesson videoRef).

(** What one event can do to the world. *)
Inductive Transition (w : World) : World -> Prop :=
| T_idle :
    Transition w w
| T_retry lesson :
    mounted w = true ->
    item lessons (currentLesson (state w)) = Some lesson ->
    lives (state w) = 0 ->
    Transition w (reset w)
| T_main lesson question h :
    mounted w = true ->
    item lessons (currentLesson (state w)) = Some lesson ->
    item (Lesson.questions lesson) (currentQuestion (state w)) = Some question ->
    lives (state w) <> 0 ->
    Offered w lesson question h ->
    Transition w (h w).

(** What holds of every world the screen can reach. *)
Definition session_invariant (w : World) : Prop :=
  0 <= lives (state w) <= 3 /\
  (lives (state w) = 0 ->
     mounted w = true /\
     showAnswer (state w) = true /\
     exists lesson, item lessons (currentLesson (state w)) = Some lesson) /\
  (List.length (navigations w) <= 1)%nat /\
  NoDup (map Word.addr (orderedWords (state w))).

(** Lexicographic order on (lesson index, question index). *)
Definition lex_lt (a b : Z * Z) : Prop :=
  fst a < fst b \/ (fst a = fst b /\ snd a < snd b).

Definition position (w : World) : Z * Z :=
  (currentLesson (state w), currentQuestion (state w)).

(** Where picked words can be: only on a word-order question whose answer
    is not revealed; and once anything has happened the very first question
    is a video-choice one. *)
Definition picking_invariant (w : World) : Prop :=
  (orderedWords (state w) = [] \/
   exists lesson question,
     item lessons (currentLesson (state w)) = Some lesson /\
     item (Lesson.questions lesson) (currentQuestion (state w)) = Some question /\
     Question.type question = word_order) /\
  (forall lesson question,
     item lessons (currentLesson (state w)) = Some lesson ->
     item (Lesson.questions lesson) (currentQuestion (state w)) = Some question ->
     Question.type question = word_order ->
     showAnswer (state w) = false) /\
  (position w <> (0, 0) \/ showAnswer (state w) = true \/ lives (state w) <> 3 ->
   forall lesson question,
     item lessons 0 = Some lesson ->
     item (Lesson.questions lesson) 0 = Some question ->
     Question.type question = video_choice).


End Component.

(** A run of word picks, each on the render that follows the previous one. *)
Definition appendWords (words : list Word.t) (w : World) : World :=
  fold_left (fun w word => appendWord (state w) word w) words w.

(** ** Concrete sessions used to exercise the properties *)

(** The shipped lesson and question at the given places. *)
Definition lesson_at (i : nat) : Lesson.t :=
  nth i Content.lessons (Lesson.mk 0 "" []).

Definition question_at (i j : nat) : Question.t :=
  nth j (Lesson.questions (lesson_at i))
    (Question.mk choice "" None None (Num 0) "" None None None None None).

(** A table on which a session can be lost: the shipped video-choice
    question three times in one lesson. *)
Definition drill : list Lesson.t :=
  [Lesson.mk 1 (Lesson.title (lesson_at 0))
     [question_at 0 0; question_at 0 0; question_at 0 0]].

Definition the_video : Video := mkVideo true.

Definition pick (k : nat) : Input := mkInput (OptionButton k) the_video.

Definition next : Input := mkInput NextButton the_video.

(** ** What the in-progress render displays *)

(** [[...Array(3)].map((_, i) => i < lives)]: the three hearts, filled or not. *)
Definition hearts (r : State) : list bool :=
  map_indexed (fun _ i => Z.of_nat i <? lives r) [tt; tt; tt].

(** The blank of the sentence:
    [selectedAnswer !== null ? question.options?.[selectedAnswer] : '____'];
    [None] is [undefined], which renders nothing. *)
Definition blank (r : State) (question : Question.t) : option string :=
  match selectedAnswer r with
  | Some k =>
      match Question.options question with
      | Some opts => item opts k
      | None => None
      end
  | None => Some "____"%string
  end.

(** The four looks of an option button ([className]): green and red
    backgrounds, plain white, and white with the hover highlight. *)
Inductive OptionStyle : Type :=
| Green
| Red
| Plain
| Hoverable.

Definition option_style (r : State) (question : Question.t) (index : Z) : OptionStyle :=
  if showAnswer r then
    if strict_equals index (Question.correct question) then Green
    else if match selectedAnswer r with
            | Some k => index =? k
            | None => false
            end then Red
    else Plain
  else Hoverable.

Section Coverage.

Variable lessons : list Lesson.t.

(** [lessons[currentLesson].questions[currentQuestion]], when both exist. *)
Definition current_question (r : State) : option Question.t :=
  match item lessons (currentLesson r) with
  | Some lesson => item (Lesson.questions lesson) (currentQuestion r)
  | None => None
  end.

(** The in-progress render is on the screen. *)
Definition in_progress (w : World) : bool :=
  mounted w && negb (lives (state w) =? 0) &&
  match current_question (state w) with
  | Some _ => true
  | None => false
  end.

(** The video element (with its play overlay) is on the screen. *)
Definition video_on_screen (w : World) : bool :=
  mounted w && negb (lives (state w) =? 0) &&
  match current_question (state w) with
  | Some question => QuestionType_eqb (Question.type question) video_choice
  | None => false
  end.

(** The hint button is on the screen. *)
Definition hint_on_screen (w : World) : bool :=
  mounted w && negb (lives (state w) =? 0) &&
  match current_question (state w) with
  | Some question => negb (showAnswer (state w)) && truthy (Question.hint question)
  | None => false
  end.

(** [i] is a click on an option that is on the screen, enabled, and not the
    correct one. *)
Definition wrong_answer_submitted (w : World) (i : Input) : bool :=
  match target i, item lessons (currentLesson (state w)) with
  | OptionButton k, Some lesson =>
      match item (Lesson.questions lesson) (currentQuestion (state w)) with
      | Some question =>
          mounted w && negb (lives (state w) =? 0) && negb (showAnswer (state w)) &&
          QuestionType_eqb (Question.type question) video_choice &&
          match Question.options question with
          | Some opts => (k <? List.length opts)%nat
          | None => false
          end &&
          negb (strict_equals (Z.of_nat k) (Question.correct question))
      | None => false
      end
  | _, _ => false
  end.

(** The number of wrong answers submitted since the last reset (or since
    the start), counted along the events; [n] is the count so far. *)
Fixpoint wrong_since_reset (inputs : list Input) (w : World) (n : Z) : Z :=
  match inputs with
  | [] => n
  | i :: rest =>
      wrong_since_reset rest (step lessons w i)
        (if reset_requested lessons w i then 0
         else if wrong_answer_submitted w i then n + 1
         else n)
  end.

(** A table the component can index throughout: at least one lesson, and
    no lesson without questions. *)
Definition every_lesson_has_questions : Prop :=
  lessons <> [] /\ Forall (fun lesson => Lesson.questions lesson <> []) lessons.

(** Both indices point into the table. *)
Definition in_range (w : World) : Prop :=
  exists lesson question,
    item lessons (currentLesson (state w)) = Some lesson /\
    item (Lesson.questions lesson) (currentQuestion (state w)) = Some question.

(** Picked words are words of the current word-order question. *)
Definition picks_from_current (w : World) : Prop :=
  orderedWords (state w) = [] \/
  exists lesson question ws,
    item lessons (currentLesson (state w)) = Some lesson /\
    item (Lesson.questions lesson) (currentQuestion (state w)) = Some question /\
    Question.type question = word_order /\
    Question.words question = Some ws /\
    Forall (fun word => In word ws) (orderedWords (state w)).

(** A selection is recorded exactly while the answer is revealed. *)
Definition selection_matches_reveal (w : World) : Prop :=
  selectedAnswer (state w) = None <-> showAnswer (state w) = false.

End Coverage.

(** The drill followed by a lesson without questions. *)
Definition drill_then_empty : list Lesson.t :=
  drill ++ [Lesson.mk 2 "" []].

Definition retry : Input := mkInput RetryButton the_video.

(** The states a session on the shipped table can be in: the first
    question unanswered; the first question answered (right or wrong); the
    second question, after that one answer. *)
Definition shipped_invariant (w : World) : Prop :=
  (position w = (0, 0) /\ showAnswer (state w) = false /\
   lives (state w) = 3 /\ score (state w) = 0) \/
  ((position w = (0, 0) /\ showAnswer (state w) = true \/
    position w = (0, 1) /\ showAnswer (state w) = false) /\
   (lives (state w) = 3 /\ score (state w) = 10 \/
    lives (state w) = 2 /\ score (state w) = 0)).

(** Two session states that differ at most in [isPlaying]. *)
Definition same_but_playing (a b : State) : Prop :=
  currentLesson a = currentLesson b /\
  currentQuestion a = currentQuestion b /\
  selectedAnswer a = selectedAnswer b /\
  showAnswer a = showAnswer b /\
  lives a = lives b /\
  showHint a = showHint b /\
  score a = score b /\
  orderedWords a = orderedWords b.

(** Two session states that differ at most in [showHint]. *)
Definition same_but_hint (a b : State) : Prop :=
  currentLesson a = currentLesson b /\
  currentQuestion a = currentQuestion b /\
  selectedAnswer a = selectedAnswer b /\
  showAnswer a = showAnswer b /\
  lives a = lives b /\
  score a = score b /\
  orderedWords a = orderedWords b /\
  isPlaying a = isPlaying b.

(** ** Counting questions *)

(** The number of questions of a list of lessons. *)
Definition count_questions (table : list Lesson.t) : Z :=
  fold_right (fun lesson n => length_of (Lesson.questions lesson) + n) 0 table.

(** The number of questions before the position of [w], and one more once
    its answer is revealed: the questions a session has been through. *)
Definition questions_seen (lessons : list Lesson.t) (w : World) : Z :=
  count_questions (firstn (Z.to_nat (currentLesson (state w))) lessons) +
  currentQuestion (state w) +
  (if showAnswer (state w) then 1 else 0).

(** The answers accepted since the last retry: 10 points for each right
    one, a life for each wrong one. *)
Definition answers_given (w : World) : Z :=
  score (state w) + 10 * (3 - lives (state w)).

Definition answers_invariant (lessons : list Lesson.t) (w : World) : Prop :=
  answers_given w <= 10 * count_questions lessons /\
  (mounted w = true -> answers_given w <= 10 * questions_seen lessons w).

(** ** The ordering used by content validation is a sort *)

Lemma insert_by_order_perm w l : Permutation (w :: l) (insert_by_order w l).
Proof.
  induction l as [|x rest IH]; simpl; [reflexivity|].
  destruct (Word.order w <=? Word.order x); [reflexivity|].
  rewrite perm_swap. now apply perm_skip.
Qed.

Lemma sort_by_order_perm l : Permutation l (sort_by_order l).
Proof.
  induction l as [|w l IH]; simpl; [constructor|].
  rewrite <- insert_by_order_perm. now apply perm_skip.
Qed.

Lemma insert_by_order_hd w x l :
  by_order x w -> HdRel by_order x l -> HdRel by_order x (insert_by_order w l).
Proof.
  intros Hxw Hx. destruct l as [|y rest]; simpl; [now constructor|].
  destruct (Word.order w <=? Word.order y); constructor; auto.
  now inversion Hx.
Qed.

Lemma insert_by_order_sorted w l :
  Sorted by_order l -> Sorted by_order (insert_by_order w l).
Proof.
  induction 1 as [|x rest Hs IH Hhd]; simpl; [repeat constructor|].
  destruct (Word.order w <=? Word.order x) eqn:E.
  - apply Z.leb_le in E. constructor; [now constructor|now constructor].
  - apply Z.leb_gt in E. constructor; [exact IH|].
    apply insert_by_order_hd; [unfold by_order; lia|exact Hhd].
Qed.

Lemma sort_by_order_sorted l : Sorted by_order (sort_by_order l).
Proof.
  induction l as [|w l IH]; simpl; [constructor|].
  now apply insert_by_order_sorted.
Qed.

(** C8: every word-order question of the shipped lesson table has its
    [correct] string equal to the texts of its words taken in ascending
    [order], and every choice-like question (video-choice included) has an
    integer [correct] that is a valid index into its options. *)
Theorem lessons_content_valid :
  Forall (fun l => Forall valid_question (Lesson.questions l)) Content.lessons.
Proof.
  unfold Content.lessons, valid_question, valid_word_order, valid_choice.
  repeat constructor; simpl; intros H; try discriminate H.
  - exists 0. eexists. repeat split; try reflexivity; vm_compute; congruence.
  - eexists. split; reflexivity.
Qed.

(** ** Proof support *)

(** Handlers are run by value, so that each write acts on the record the
    previous one built. *)
Ltac exec :=
  cbv beta iota zeta delta
    [submitAnswer appendWord reset advance click option_button word_button
     retry_button next_button back_button hint_button video_button
     video_onEnded handleAnswer handleNext handleVideoPlay seq skip
     setCurrentLesson setCurrentQuestion setSelectedAnswer setShowAnswer
     setLives setShowHint setScore setOrderedWords setIsPlaying navigate
     video_command update position disabled onClick negb
     state navigations media currentLesson currentQuestion selectedAnswer
     showAnswer lives showHint score orderedWords isPlaying fst snd] in *.

Ltac open_world w :=
  let cl := fresh "cl" in let cq := fresh "cq" in let sel := fresh "sel" in
  let shown := fresh "shown" in let lv := fresh "lv" in let hinted := fresh "hinted" in
  let sc := fresh "sc" in let ow := fresh "ow" in let playing := fresh "playing" in
  let nav := fresh "nav" in let med := fresh "med" in
  destruct w as [[cl cq sel shown lv hinted sc ow playing] nav med]; exec.

Lemma strict_equals_true index correct :
  strict_equals index correct = true <-> correct = Num index.
Proof.
  destruct correct as [n|s]; simpl; split; intros H; try discriminate.
  - apply Z.eqb_eq in H. now subst.
  - inversion H. apply Z.eqb_refl.
Qed.

Lemma strict_equals_false index correct :
  strict_equals index correct = false <-> correct <> Num index.
Proof.
  rewrite <- strict_equals_true. destruct (strict_equals index correct); split; congruence.
Qed.

(** ** Answering *)

(** C1: a submitAnswer call made while the answer is not yet revealed adds
    exactly 10 to the score and leaves the lives alone when the index is the
    question's correct index, otherwise takes exactly one life and leaves the
    score alone; either way it records the index as the selected answer and
    reveals the answer. *)
Theorem submitAnswer_scores (w : World) (question : Question.t) (index : Z) :
  showAnswer (state w) = false ->
  let w' := submitAnswer (state w) question index w in
  (Question.correct question = Num index ->
     score (state w') = score (state w) + 10 /\ lives (state w') = lives (state w)) /\
  (Question.correct question <> Num index ->
     lives (state w') = lives (state w) - 1 /\ score (state w') = score (state w)) /\
  selectedAnswer (state w') = Some index /\
  showAnswer (state w') = true.
Proof.
  intros Hhidden. open_world w. subst shown.
  destruct (strict_equals index (Question.correct question)) eqn:E.
  - apply strict_equals_true in E. repeat split; intros; congruence.
  - apply strict_equals_false in E. repeat split; intros; congruence.
Qed.

Lemma revealed_submit_ignored (w : World) (question : Question.t) (index : Z) :
  showAnswer (state w) = true ->
  submitAnswer (state w) question index w = w.
Proof.
  intros Hshown. open_world w. now subst shown.
Qed.

(** C2: while the answer is revealed a submitAnswer call changes nothing:
    the whole session state, the router log and the media log are the
    ones before the call. *)
Theorem submitAnswer_revealed_noop (w : World) (question : Question.t) (index : Z) :
  showAnswer (state w) = true ->
  submitAnswer (state w) question index w = w.
Proof.
  exact (revealed_submit_ignored w question index).
Qed.

(** ** Retrying *)

(** C6: whatever the state before, reset sets lives to 3, score to 0, both
    indices to 0 and empties orderedWords. *)
Theorem reset_restores (w : World) :
  let w' := reset w in
  lives (state w') = 3 /\
  score (state w') = 0 /\
  currentLesson (state w') = 0 /\
  currentQuestion (state w') = 0 /\
  orderedWords (state w') = [].
Proof.
  open_world w. repeat split.
Qed.

(** C9: reset writes only lives, score, the two indices and orderedWords:
    selectedAnswer, showAnswer, showHint and isPlaying (and the router and
    media logs) keep their values.  So after a losing answer, which leaves the
    answer revealed, the restarted session sits on the first question with the
    answer still revealed: its option buttons are disabled. *)
Theorem reset_keeps_reveal (w : World) :
  let w' := reset w in
  (selectedAnswer (state w') = selectedAnswer (state w) /\
   showAnswer (state w') = showAnswer (state w) /\
   showHint (state w') = showHint (state w) /\
   isPlaying (state w') = isPlaying (state w) /\
   navigations w' = navigations w /\
   media w' = media w) /\
  (forall question index,
     showAnswer (state w) = false ->
     lives (state w) = 1 ->
     Question.correct question <> Num index ->
     let lost := submitAnswer (state w) question index w in
     let again := reset lost in
     lives (state lost) = 0 /\
     showAnswer (state lost) = true /\
     lives (state again) = 3 /\
     position again = (0, 0) /\
     showAnswer (state again) = true /\
     selectedAnswer (state again) = Some index /\
     forall q k, disabled (option_button (state again) q k) = true).
Proof.
  split.
  - open_world w. repeat split.
  - intros question index Hhidden Hlast Hwrong.
    apply strict_equals_false in Hwrong.
    open_world w. subst shown lv. rewrite Hwrong. repeat split.
Qed.


(** ** The controls of a render, looked up *)

Lemma lookup_app c (a b : View) :
  lookup c (a ++ b) =
  match lookup c a with
  | Some x => Some x
  | None => lookup c b
  end.
Proof.
  induction a as [|[c' x] a IH]; simpl; [reflexivity|].
  now destruct (Control_eqb c c').
Qed.

Lemma lookup_options (g : nat -> Button) (opts : list string) (start k : nat) :
  lookup (OptionButton k) (map_from (fun _ i => (OptionButton i, g i)) start opts) =
  if ((start <=? k) && (k <? start + List.length opts))%nat then Some (g k) else None.
Proof.
  revert start. induction opts as [|o opts IH]; intros start; cbn [map_from lookup List.length].
  - destruct (Nat.leb_spec start k), (Nat.ltb_spec k (start + 0)); cbn [andb];
      try reflexivity; lia.
  - cbn [Control_eqb]. destruct (Nat.eqb_spec k start) as [E|E].
    + subst k.
      destruct (Nat.leb_spec start start), (Nat.ltb_spec start (start + S (List.length opts)));
        cbn [andb]; try reflexivity; lia.
    + rewrite IH.
      destruct (Nat.leb_spec (S start) k), (Nat.ltb_spec k (S start + List.length opts)),
        (Nat.leb_spec start k), (Nat.ltb_spec k (start + S (List.length opts)));
        cbn [andb]; try reflexivity; lia.
Qed.

Lemma lookup_words (g : Word.t -> Button) (ws : list Word.t) (start k : nat) :
  lookup (WordButton k) (map_from (fun word i => (WordButton i, g word)) start ws) =
  if (start <=? k)%nat then option_map g (nth_error ws (k - start)) else None.
Proof.
  revert start. induction ws as [|x ws IH]; intros start; cbn [map_from lookup].
  - destruct (start <=? k)%nat; [|reflexivity]. now destruct (k - start)%nat.
  - cbn [Control_eqb]. destruct (Nat.eqb_spec k start) as [E|E].
    + subst k. now rewrite Nat.leb_refl, Nat.sub_diag.
    + rewrite IH.
      destruct (Nat.leb_spec (S start) k), (Nat.leb_spec start k); try reflexivity; try lia.
      replace (k - start)%nat with (S (k - S start)) by lia. reflexivity.
Qed.

Lemma lookup_not_option c (g : nat -> Button) (opts : list string) (start : nat) :
  (forall k, c <> OptionButton k) ->
  lookup c (map_from (fun _ i => (OptionButton i, g i)) start opts) = None.
Proof.
  intros Hc. revert start. induction opts as [|o opts IH]; intros start; simpl; [reflexivity|].
  rewrite IH. destruct c; try reflexivity. now destruct (Hc index).
Qed.

Lemma lookup_not_word c (g : Word.t -> Button) (ws : list Word.t) (start : nat) :
  (forall k, c <> WordButton k) ->
  lookup c (map_from (fun word i => (WordButton i, g word)) start ws) = None.
Proof.
  intros Hc. revert start. induction ws as [|x ws IH]; intros start; simpl; [reflexivity|].
  rewrite IH. destruct c; try reflexivity. now destruct (Hc index).
Qed.

Lemma lookup_renderQuestion lessons r lesson question videoRef c :
  match c with HintButton | NextButton | BackButton => False | _ => True end ->
  lookup c (renderQuestion r question videoRef) =
  button_of lessons r lesson question videoRef c.
Proof.
  intros Hc. unfold renderQuestion, optional, map_indexed, button_of.
  destruct (Question.type question); try (now destruct c).
  - destruct (Question.words question) as [ws|]; [|now destruct c].
    destruct c; try contradiction;
      try (apply lookup_not_word; intros k E; discriminate E).
    rewrite lookup_words. cbn [Nat.leb]. now rewrite Nat.sub_0_r.
  - destruct (Question.options question) as [opts|]; [|now destruct c].
    destruct c; try contradiction; cbn [app lookup Control_eqb]; try reflexivity;
      try (apply lookup_not_option; intros k E; discriminate E).
    now rewrite (lookup_options (fun i => option_button r question (Z.of_nat i))).
Qed.

Lemma lookup_renderQuestion_none r question videoRef c :
  match c with HintButton | NextButton | BackButton | RetryButton => True | _ => False end ->
  lookup c (renderQuestion r question videoRef) = None.
Proof.
  intros Hc. unfold renderQuestion, optional, map_indexed.
  destruct (Question.type question); try (now destruct c).
  - destruct (Question.words question) as [ws|]; [|now destruct c].
    apply lookup_not_word. intros k E. now subst c.
  - destruct (Question.options question) as [opts|]; [|now destruct c].
    destruct c; try contradiction; cbn [app lookup Control_eqb];
      apply lookup_not_option; intros k E; discriminate E.
Qed.

(** The list the component renders and its reading by control agree. *)
Lemma lookup_in_progress lessons r lesson question videoRef c :
  lookup c ([(BackButton, back_button)] ++
            renderQuestion r question videoRef ++
            (if negb (showAnswer r) && truthy (Question.hint question)
             then [(HintButton, hint_button)] else []) ++
            (if showAnswer r
             then [(NextButton, next_button lessons r lesson videoRef)] else [])) =
  button_of lessons r lesson question videoRef c.
Proof.
  cbn [app lookup]. rewrite lookup_app.
  assert (Htail : forall c', match c' with HintButton | NextButton => False | _ => True end ->
            button_of lessons r lesson question videoRef c' = None ->
            lookup c' ((if negb (showAnswer r) && truthy (Question.hint question)
                        then [(HintButton, hint_button)] else []) ++
                       (if showAnswer r
                        then [(NextButton, next_button lessons r lesson videoRef)] else [])) =
            None).
  { intros c' Hc' _.
    destruct (negb (showAnswer r) && truthy (Question.hint question));
      destruct (showAnswer r); now destruct c'. }
  destruct c; cbn [Control_eqb].
  - rewrite lookup_renderQuestion_none by exact I. now apply Htail.
  - reflexivity.
  - rewrite (lookup_renderQuestion lessons r lesson) by exact I.
    destruct (button_of lessons r lesson question videoRef VideoButton) eqn:E;
      [reflexivity|now apply Htail].
  - rewrite (lookup_renderQuestion lessons r lesson) by exact I.
    destruct (button_of lessons r lesson question videoRef VideoEnded) eqn:E;
      [reflexivity|now apply Htail].
  - rewrite (lookup_renderQuestion lessons r lesson) by exact I.
    destruct (button_of lessons r lesson question videoRef (OptionButton index)) eqn:E;
      [reflexivity|now apply Htail].
  - rewrite (lookup_renderQuestion lessons r lesson) by exact I.
    destruct (button_of lessons r lesson question videoRef (WordButton index)) eqn:E;
      [reflexivity|now apply Htail].
  - rewrite lookup_renderQuestion_none by exact I. unfold button_of.
    destruct (negb (showAnswer r) && truthy (Question.hint question));
      destruct (showAnswer r); reflexivity.
  - rewrite lookup_renderQuestion_none by exact I. unfold button_of.
    destruct (negb (showAnswer r) && truthy (Question.hint question));
      destruct (showAnswer r); reflexivity.
Qed.

(** [step] spelled out on the two renders. *)
Lemma step_game_over lessons w i lesson :
  mounted w = true ->
  item lessons (currentLesson (state w)) = Some lesson ->
  lives (state w) = 0 ->
  step lessons w i =
  match target i with
  | RetryButton => reset w
  | _ => w
  end.
Proof.
  intros Hm Hl Hz. unfold step, screen, ComprehensiveStudy.
  rewrite Hm, Hl, Hz. cbn [Z.eqb lookup].
  now destruct (target i).
Qed.

Lemma step_in_progress lessons w i lesson question :
  mounted w = true ->
  item lessons (currentLesson (state w)) = Some lesson ->
  item (Lesson.questions lesson) (currentQuestion (state w)) = Some question ->
  lives (state w) <> 0 ->
  step lessons w i =
  match button_of lessons (state w) lesson question
          (match Question.type question with
           | video_choice => Some (video_now i)
           | _ => None
           end) (target i) with
  | Some b => click b w
  | None => w
  end.
Proof.
  intros Hm Hl Hq Hz. unfold step, screen, ComprehensiveStudy.
  rewrite Hm, Hl, Hq. apply Z.eqb_neq in Hz. rewrite Hz.
  now rewrite lookup_in_progress.
Qed.

Lemma step_nothing_rendered lessons w i :
  screen lessons w (video_now i) = None -> step lessons w i = w.
Proof. intros H. unfold step. now rewrite H. Qed.

Lemma step_transition lessons w i : Transition lessons w (step lessons w i).
Proof.
  destruct (mounted w) eqn:Hm;
    [|rewrite step_nothing_rendered; [constructor|unfold screen; now rewrite Hm]].
  destruct (item lessons (currentLesson (state w))) as [lesson|] eqn:Hl;
    [|rewrite step_nothing_rendered;
      [constructor|unfold screen, ComprehensiveStudy; now rewrite Hm, Hl]].
  destruct (Z.eq_dec (lives (state w)) 0) as [Hz|Hz].
  - rewrite (step_game_over lessons w i lesson Hm Hl Hz).
    destruct (target i); try constructor.
    now apply (T_retry lessons w lesson).
  - destruct (item (Lesson.questions lesson) (currentQuestion (state w)))
      as [question|] eqn:Hq.
    2:{ rewrite step_nothing_rendered; [constructor|].
        unfold screen, ComprehensiveStudy. rewrite Hm, Hl, Hq.
        apply Z.eqb_neq in Hz. now rewrite Hz. }
    rewrite (step_in_progress lessons w i lesson question Hm Hl Hq Hz).
    assert (Hmain : forall h, Offered lessons w lesson question h ->
                              Transition lessons w (h w)).
    { intros h Hh. now apply (T_main lessons w lesson question h). }
    unfold button_of.
    destruct (target i) as [| | | |k|k| |].
    + constructor.
    + apply (Hmain (navigate "/")). constructor.
    + destruct (Question.type question) eqn:Ht; try constructor.
      apply (Hmain (handleVideoPlay (Some (video_now i)))). now constructor.
    + destruct (Question.type question) eqn:Ht; try constructor.
      apply (Hmain (setIsPlaying false)). now constructor.
    + destruct (Question.type question) eqn:Ht; try constructor.
      destruct (Question.options question) as [opts|] eqn:Ho; [|constructor].
      destruct (Nat.ltb_spec k (List.length opts)) as [Hk|Hk]; [|constructor].
      unfold click, option_button. cbn [disabled onClick].
      destruct (showAnswer (state w)) eqn:Hs; [constructor|]. cbn [negb].
      apply Hmain. now apply (O_answer lessons w lesson question opts k).
    + destruct (Question.type question) eqn:Ht; try constructor.
      destruct (Question.words question) as [ws|] eqn:Hw; [|constructor].
      destruct (nth_error ws k) as [word|] eqn:Hk; [|constructor].
      cbn [option_map]. unfold click, word_button. cbn [disabled onClick].
      destruct (includes (orderedWords (state w)) word) eqn:Hi; [constructor|].
      apply Hmain. now apply (O_word lessons w lesson question ws k word).
    + destruct (showAnswer (state w)) eqn:Hs; cbn [negb andb]; [constructor|].
      destruct (truthy (Question.hint question)) eqn:Hh; [|constructor].
      apply (Hmain (setShowHint true)). now constructor.
    + destruct (showAnswer (state w)) eqn:Hs; [|constructor].
      apply Hmain. constructor; [exact Hs|].
      intros Hn. destruct (Question.type question); congruence.
Qed.

(** ** Invariants of the event loop *)

Lemma includes_false_not_In l word :
  includes l word = false -> ~ In (Word.addr word) (map Word.addr l).
Proof.
  unfold includes, Word.same_object.
  induction l as [|x l IH]; simpl; [tauto|].
  intros H. apply orb_false_elim in H as [Hx Hl].
  apply Nat.eqb_neq in Hx. intros [E|E]; [congruence|now apply IH].
Qed.

Lemma NoDup_addr_push l word :
  NoDup (map Word.addr l) -> includes l word = false ->
  NoDup (map Word.addr (l ++ [word])).
Proof.
  intros Hl Hw. rewrite map_app. simpl.
  apply NoDup_app; [exact Hl|repeat constructor; tauto|].
  intros a Ha [E|[]]. subst a. now apply (includes_false_not_In l word).
Qed.

Lemma initial_invariant lessons : session_invariant lessons initial.
Proof.
  unfold session_invariant, initial, mounted. cbn.
  repeat split; try lia; try constructor; discriminate.
Qed.

Lemma mounted_navigations w : mounted w = true -> navigations w = [].
Proof. unfold mounted. now destruct (navigations w). Qed.

Ltac invariant_step :=
  repeat split; try lia; try assumption; try (intros; lia);
  try (intros; exfalso; lia).

Lemma transition_invariant lessons w w' :
  session_invariant lessons w -> Transition lessons w w' -> session_invariant lessons w'.
Proof.
  intros Hinv Ht.
  destruct Ht as [|lesson Hm Hl Hz|lesson question h Hm Hl Hq Hz Hh]; [exact Hinv| |].
  - apply mounted_navigations in Hm. unfold session_invariant, mounted in *.
    open_world w. subst nav. cbn [List.length map]. invariant_step. constructor.
  - apply mounted_navigations in Hm.
    destruct Hh as [|v Ht|Ht|opts k Ht Ho Hk Hs|ws k word Ht Hw Hk Hi|Hs Hh|videoRef Hs Hv];
      unfold session_invariant, mounted in *.
    + open_world w. subst nav. cbn [List.length app]. destruct Hinv as (? & ? & ? & ?).
      invariant_step.
    + open_world w. subst nav. destruct Hinv as (? & ? & ? & ?).
      destruct (paused v); invariant_step.
    + open_world w. subst nav. destruct Hinv as (? & ? & ? & ?). invariant_step.
    + open_world w. subst nav shown. destruct Hinv as (? & ? & ? & ?).
      destruct (strict_equals _ _); invariant_step.
      exists lesson. exact Hl.
    + open_world w. subst nav. destruct Hinv as (? & ? & ? & ?). invariant_step.
      now apply NoDup_addr_push.
    + open_world w. subst nav. destruct Hinv as (? & ? & ? & ?). invariant_step.
    + open_world w. subst nav. destruct Hinv as (? & ? & ? & ?).
      destruct (cq <? _); [|destruct (cl <? _)];
        destruct videoRef; cbn [List.length app]; invariant_step.
Qed.

Lemma run_invariant lessons inputs w :
  session_invariant lessons w -> session_invariant lessons (run lessons inputs w).
Proof.
  revert w. induction inputs as [|i inputs IH]; intros w Hw; simpl; [exact Hw|].
  apply IH. apply (transition_invariant lessons w); [exact Hw|apply step_transition].
Qed.

Lemma reachable_invariant lessons inputs :
  session_invariant lessons (run lessons inputs initial).
Proof. apply run_invariant, initial_invariant. Qed.

(** Once the screen was left nothing is rendered and no event is handled. *)
Lemma unmounted_frozen lessons w :
  mounted w = false ->
  (forall v, screen lessons w v = None) /\
  (forall inputs, run lessons inputs w = w).
Proof.
  intros Hm. split.
  - intros v. unfold screen. now rewrite Hm.
  - induction inputs as [|i inputs IH]; cbn [run fold_left]; [reflexivity|].
    rewrite step_nothing_rendered; [exact IH|].
    unfold screen. now rewrite Hm.
Qed.

(** On the game-over screen only the retry button does anything. *)
Lemma game_over_step lessons w i :
  lives (state w) = 0 -> target i <> RetryButton -> step lessons w i = w.
Proof.
  intros Hz Hi. unfold step, screen, ComprehensiveStudy.
  destruct (mounted w); [|reflexivity].
  destruct (item lessons (currentLesson (state w))); [|reflexivity].
  rewrite Hz. cbn [Z.eqb lookup]. destruct (target i); try reflexivity. contradiction.
Qed.

Lemma game_over_run lessons w inputs :
  lives (state w) = 0 ->
  Forall (fun i => target i <> RetryButton) inputs ->
  run lessons inputs w = w.
Proof.
  intros Hz Hall. induction Hall as [|i inputs Hi Hall IH]; cbn [run fold_left]; [reflexivity|].
  now rewrite (game_over_step lessons w i Hz Hi).
Qed.

(** ** Lives and game over *)

(** C4: along every sequence of events from the initial state lives stays
    within 0..3; whenever lives is 0 the session is in GameOver (the render
    is the game-over screen), every submitAnswer call there changes nothing,
    and so does every run of events until the retry button is clicked. *)
Theorem lives_within_bounds lessons (inputs : list Input) :
  let w := run lessons inputs initial in
  0 <= lives (state w) <= 3 /\
  (lives (state w) = 0 ->
     phase w = GameOver /\
     (forall v, shows_game_over lessons w v) /\
     (forall question index, submitAnswer (state w) question index w = w) /\
     (forall more, Forall (fun i => target i <> RetryButton) more ->
                   run lessons more w = w)).
Proof.
  intros w. destruct (reachable_invariant lessons inputs) as (Hb & Hover & _ & _).
  fold w in Hb, Hover. split; [exact Hb|].
  intros Hz. destruct (Hover Hz) as (Hm & Hs & lesson & Hl). repeat split.
  - unfold phase. rewrite Hm, Hz. reflexivity.
  - intros v. unfold shows_game_over, screen, ComprehensiveStudy.
    now rewrite Hm, Hl, Hz.
  - intros question index. now apply revealed_submit_ignored.
  - intros more Hmore. now apply game_over_run.
Qed.

(** ** Advancing *)

(** C5: advance moves the position (lesson index, question index) strictly
    forward in lexicographic order: the question index is incremented when it
    is not the last of the lesson; otherwise the lesson index is incremented
    and the question index set to 0 when the lesson is not the last one;
    otherwise the position stays, exactly one navigation (to the home path) is
    requested, and the session is Completed: nothing is rendered any more and
    no later event has an effect.  From the initial state no run of events
    requests more than one navigation. *)
Theorem advance_progress lessons (w : World) lesson videoRef :
  let r := state w in
  let w' := advance lessons r lesson videoRef w in
  let last_question := length_of (Lesson.questions lesson) - 1 in
  let last_lesson := length_of lessons - 1 in
  (currentQuestion r < last_question ->
     position w' = (currentLesson r, currentQuestion r + 1) /\
     navigations w' = navigations w /\
     lex_lt (position w) (position w')) /\
  (~ currentQuestion r < last_question -> currentLesson r < last_lesson ->
     position w' = (currentLesson r + 1, 0) /\
     navigations w' = navigations w /\
     lex_lt (position w) (position w')) /\
  (~ currentQuestion r < last_question -> ~ currentLesson r < last_lesson ->
     position w' = position w /\
     navigations w' = navigations w ++ ["/"%string] /\
     phase w' = Completed /\
     (forall v, screen lessons w' v = None) /\
     (forall inputs, run lessons inputs w' = w')) /\
  (forall inputs, (List.length (navigations (run lessons inputs initial)) <= 1)%nat).
Proof.
  intros r w' last_question last_lesson. subst r last_question last_lesson.
  split; [|split; [|split]].
  - intros Hq. apply Z.ltb_lt in Hq. subst w'. open_world w. rewrite Hq.
    unfold lex_lt. destruct videoRef; cbn [fst snd]; repeat split; lia.
  - intros Hq Hl. apply Z.ltb_nlt in Hq. apply Z.ltb_lt in Hl.
    subst w'. open_world w. rewrite Hq. pose proof Hl as Hl'. apply Z.ltb_lt in Hl'.
    rewrite Hl. unfold lex_lt. destruct videoRef; cbn [fst snd]; repeat split; lia.
  - intros Hq Hl. apply Z.ltb_nlt in Hq, Hl.
    assert (Hn : navigations w' = navigations w ++ ["/"%string]).
    { subst w'. open_world w. rewrite Hq, Hl. now destruct videoRef. }
    assert (Hm : mounted w' = false).
    { unfold mounted. rewrite Hn. now destruct (navigations w). }
    split; [|split; [exact Hn|split; [|exact (unmounted_frozen lessons w' Hm)]]].
    + subst w'. open_world w. rewrite Hq, Hl. now destruct videoRef.
    + unfold phase. now rewrite Hm.
  - intros inputs. apply (reachable_invariant lessons inputs).
Qed.

(** ** Picking words *)

Lemma appendWord_NoDup w word :
  NoDup (map Word.addr (orderedWords (state w))) ->
  NoDup (map Word.addr (orderedWords (state (appendWord (state w) word w)))).
Proof.
  intros Hw. unfold appendWord, click, word_button. cbn [disabled onClick].
  destruct (includes (orderedWords (state w)) word) eqn:Hi; [exact Hw|].
  open_world w. now apply NoDup_addr_push.
Qed.

(** C7: a word whose identity is already in orderedWords is not appended
    again (the click changes nothing), so any run of appendWord calls from a
    duplicate-free orderedWords leaves it duplicate-free; and from the initial
    state every run of events keeps each word identity at most once in
    orderedWords. *)
Theorem appendWord_never_repeats (words : list Word.t) (w : World) :
  NoDup (map Word.addr (orderedWords (state w))) ->
  NoDup (map Word.addr (orderedWords (state (appendWords words w)))) /\
  (forall word, includes (orderedWords (state w)) word = true ->
                appendWord (state w) word w = w) /\
  (forall lessons inputs,
     NoDup (map Word.addr (orderedWords (state (run lessons inputs initial))))).
Proof.
  intros Hw. split; [|split].
  - revert w Hw. induction words as [|word words IH]; intros w Hw; [exact Hw|].
    cbn [appendWords fold_left]. apply IH. now apply appendWord_NoDup.
  - intros word Hin. unfold appendWord, click, word_button. cbn [disabled onClick].
    now rewrite Hin.
  - intros lessons inputs. apply (reachable_invariant lessons inputs).
Qed.

(** ** Score *)

Lemma step_score lessons w i :
  score (state (step lessons w i)) =
  if reset_requested lessons w i then 0
  else if correct_answer_submitted lessons w i then score (state w) + 10
  else score (state w).
Proof.
  unfold reset_requested, correct_answer_submitted.
  destruct (mounted w) eqn:Hm.
  2:{ rewrite step_nothing_rendered by (unfold screen; now rewrite Hm).
      destruct (target i), (item lessons (currentLesson (state w))) as [lesson|];
        try reflexivity.
      now destruct (item (Lesson.questions lesson) (currentQuestion (state w))). }
  destruct (item lessons (currentLesson (state w))) as [lesson|] eqn:Hl.
  2:{ rewrite step_nothing_rendered
        by (unfold screen, ComprehensiveStudy; now rewrite Hm, Hl).
      now destruct (target i). }
  destruct (Z.eq_dec (lives (state w)) 0) as [Hz|Hz].
  { rewrite (step_game_over lessons w i lesson Hm Hl Hz), Hz. cbn [Z.eqb andb negb].
    destruct (target i); try reflexivity.
    now destruct (item (Lesson.questions lesson) (currentQuestion (state w))). }
  pose proof Hz as Hz'. apply Z.eqb_neq in Hz'. rewrite Hz'. cbn [andb negb].
  destruct (item (Lesson.questions lesson) (currentQuestion (state w)))
    as [question|] eqn:Hq.
  2:{ rewrite step_nothing_rendered
        by (unfold screen, ComprehensiveStudy; now rewrite Hm, Hl, Hq, Hz').
      now destruct (target i). }
  rewrite (step_in_progress lessons w i lesson question Hm Hl Hq Hz).
  unfold button_of.
  destruct (target i) as [| | | |k|k| |].
  - reflexivity.
  - reflexivity.
  - destruct (Question.type question); try reflexivity.
    open_world w. now destruct (paused (video_now i)).
  - now destruct (Question.type question).
  - destruct (Question.type question); cbn [QuestionType_eqb andb]; try reflexivity;
      try (now destruct (showAnswer (state w))).
    destruct (Question.options question) as [opts|];
      [|now destruct (showAnswer (state w))].
    destruct (k <? List.length opts)%nat;
      [|now destruct (showAnswer (state w))].
    unfold click, option_button. cbn [disabled onClick andb].
    destruct (showAnswer (state w)) eqn:Hs; [reflexivity|]. cbn [negb].
    open_world w. now destruct (strict_equals (Z.of_nat k) (Question.correct question)).
  - destruct (Question.type question); try reflexivity.
    destruct (Question.words question) as [ws|]; [|reflexivity].
    destruct (nth_error ws k) as [word|]; [|reflexivity].
    cbn [option_map]. unfold click, word_button. cbn [disabled onClick].
    now destruct (includes (orderedWords (state w)) word).
  - now destruct (negb (showAnswer (state w)) && truthy (Question.hint question)).
  - destruct (showAnswer (state w)); [|reflexivity].
    open_world w.
    destruct (cq <? _); [|destruct (cl <? _)];
      now destruct (Question.type question).
Qed.

Lemma run_score lessons inputs w n :
  score (state w) = 10 * n ->
  score (state (run lessons inputs w)) = 10 * correct_since_reset lessons inputs w n.
Proof.
  revert w n. induction inputs as [|i inputs IH]; intros w n Hn; [exact Hn|].
  cbn [run fold_left correct_since_reset]. apply IH. rewrite step_score.
  destruct (reset_requested lessons w i); [reflexivity|].
  destruct (correct_answer_submitted lessons w i); lia.
Qed.

Lemma correct_since_reset_nonneg lessons inputs w n :
  0 <= n -> 0 <= correct_since_reset lessons inputs w n.
Proof.
  revert w n. induction inputs as [|i inputs IH]; intros w n Hn; [exact Hn|].
  cbn [correct_since_reset]. apply IH.
  destruct (reset_requested lessons w i); [lia|].
  destruct (correct_answer_submitted lessons w i); lia.
Qed.

(** C10: in every state reached from the initial one the score is 10 times
    the number of correct answers submitted since the last reset (or since
    the start), hence a non-negative multiple of 10. *)
Theorem score_counts_correct_answers lessons (inputs : list Input) :
  let w := run lessons inputs initial in
  let n := correct_since_reset lessons inputs initial 0 in
  score (state w) = 10 * n /\ 0 <= n /\ 0 <= score (state w).
Proof.
  intros w n.
  assert (Hs : score (state w) = 10 * n) by (apply run_score; reflexivity).
  assert (Hn : 0 <= n) by (apply correct_since_reset_nonneg; lia).
  repeat split; [exact Hs|exact Hn|lia].
Qed.


(** ** Where picked words can be *)

Lemma initial_picking lessons : picking_invariant lessons initial.
Proof.
  unfold picking_invariant, initial, position. cbn.
  split; [now left|split; [reflexivity|]].
  intros [H|[H|H]]; [now destruct H|discriminate H|now destruct H].
Qed.

Lemma revealed_not_picking lessons w :
  picking_invariant lessons w ->
  showAnswer (state w) = true -> orderedWords (state w) = [].
Proof.
  intros ([Hnone|(lesson & question & Hl & Hq & Ht)] & Hhidden & _) Hs; [exact Hnone|].
  rewrite (Hhidden lesson question Hl Hq Ht) in Hs. discriminate Hs.
Qed.

Lemma transition_picking lessons w w' :
  session_invariant lessons w -> picking_invariant lessons w ->
  Transition lessons w w' -> picking_invariant lessons w'.
Proof.
  intros Hsession Hinv Ht.
  destruct Ht as [|lesson Hm Hl Hz|lesson question h Hm Hl Hq Hz Hh]; [exact Hinv| |].
  - destruct Hsession as (_ & Hover & _). destruct (Hover Hz) as (_ & Hs & _).
    destruct Hinv as (_ & _ & Hfirst).
    assert (Hvc := Hfirst (or_intror (or_introl Hs))).
    unfold picking_invariant in *. open_world w.
    split; [now left|split].
    + intros l q Hl0 Hq0 Ht. rewrite (Hvc l q Hl0 Hq0) in Ht. discriminate Ht.
    + intros _. exact Hvc.
  - pose proof (revealed_not_picking lessons w Hinv) as Hrev.
    destruct Hinv as (Hwords & Hhidden & Hfirst).
    destruct Hh as [|v Ht|Ht|opts k Ht Ho Hk Hs|ws k word Ht Hw Hk Hi|Hs Hh|videoRef Hs Hv];
      unfold picking_invariant.
    + open_world w. repeat split; assumption.
    + open_world w. destruct (paused v); repeat split; assumption.
    + open_world w. repeat split; assumption.
    + assert (Hnone : orderedWords (state w) = []).
      { destruct Hwords as [Hnone|(l & q & Hl' & Hq' & Ht')]; [exact Hnone|].
        rewrite Hl in Hl'. injection Hl' as <-. rewrite Hq in Hq'. injection Hq' as <-.
        rewrite Ht in Ht'. discriminate Ht'. }
      assert (Hvc : forall l q, item lessons 0 = Some l ->
                                item (Lesson.questions l) 0 = Some q ->
                                Question.type q = video_choice).
      { destruct (Z.eq_dec (currentLesson (state w)) 0) as [El|El];
          [destruct (Z.eq_dec (currentQuestion (state w)) 0) as [Eq|Eq]|].
        - intros l q Hl0 Hq0. rewrite El in Hl. rewrite Hl in Hl0. injection Hl0 as <-.
          rewrite Eq in Hq. rewrite Hq in Hq0. injection Hq0 as <-. exact Ht.
        - apply Hfirst. left. unfold position. congruence.
        - apply Hfirst. left. unfold position. congruence. }
      open_world w. subst ow.
      destruct (strict_equals _ _); (split; [now left|split; [|intros _; exact Hvc]]);
        intros l q Hl' Hq' Ht'; rewrite Hl in Hl'; injection Hl' as <-;
        rewrite Hq in Hq'; injection Hq' as <-; rewrite Ht in Ht'; discriminate Ht'.
    + assert (Hs : showAnswer (state w) = false) by exact (Hhidden lesson question Hl Hq Ht).
      open_world w. split; [|split; assumption].
      right. exists lesson, question. repeat split; assumption.
    + open_world w. repeat split; assumption.
    + specialize (Hrev Hs).
      assert (Hvc := Hfirst (or_intror (or_introl Hs))).
      open_world w. subst ow.
      destruct (cq <? _); [|destruct (cl <? _)];
        destruct videoRef; (split; [now left|split; [reflexivity|intros _; exact Hvc]]).
Qed.

Lemma run_picking lessons inputs w :
  session_invariant lessons w -> picking_invariant lessons w ->
  picking_invariant lessons (run lessons inputs w).
Proof.
  revert w. induction inputs as [|i inputs IH]; intros w Hs Hp; [exact Hp|].
  cbn [run fold_left]. apply IH.
  - apply (transition_invariant lessons w); [exact Hs|apply step_transition].
  - apply (transition_picking lessons w); [exact Hs|exact Hp|apply step_transition].
Qed.

(** Through the screen, the next button is only ever offered (the answer
    is revealed) while no word is picked. *)
Lemma revealed_nothing_picked lessons inputs :
  let w := run lessons inputs initial in
  showAnswer (state w) = true -> orderedWords (state w) = [].
Proof.
  intros w. apply (revealed_not_picking lessons).
  apply run_picking; [apply initial_invariant|apply initial_picking].
Qed.

(** ** Advancing and the per-question state *)

(** What handleNext writes besides the position: the four flags, on every
    branch; orderedWords is not among its writes. *)
Lemma advance_frame lessons (w : World) lesson videoRef :
  let w' := advance lessons (state w) lesson videoRef w in
  selectedAnswer (state w') = None /\
  showAnswer (state w') = false /\
  showHint (state w') = false /\
  isPlaying (state w') = false /\
  orderedWords (state w') = orderedWords (state w).
Proof.
  open_world w.
  destruct (cq <? _); [|destruct (cl <? _)]; destruct videoRef; repeat split.
Qed.

(** ** The properties at work on concrete sessions *)

Lemma submitAnswer_scores_witness :
  (let w' := submitAnswer (state initial) (question_at 0 0) 0 initial in
   score (state w') = 10 /\ lives (state w') = 3 /\
   selectedAnswer (state w') = Some 0 /\ showAnswer (state w') = true) /\
  (let w' := submitAnswer (state initial) (question_at 0 0) 2 initial in
   score (state w') = 0 /\ lives (state w') = 2 /\
   selectedAnswer (state w') = Some 2 /\ showAnswer (state w') = true).
Proof.
  split.
  - destruct (submitAnswer_scores initial (question_at 0 0) 0) as (Hright & _ & Hsel & Hs);
      [reflexivity|].
    destruct Hright as [Hscore Hlives]; [reflexivity|].
    cbv zeta. repeat split; assumption.
  - destruct (submitAnswer_scores initial (question_at 0 0) 2) as (_ & Hwrong & Hsel & Hs);
      [reflexivity|].
    destruct Hwrong as [Hlives Hscore]; [vm_compute; discriminate|].
    cbv zeta. repeat split; assumption.
Defined.

Lemma submitAnswer_revealed_noop_witness :
  let w := submitAnswer (state initial) (question_at 0 0) 0 initial in
  showAnswer (state w) = true /\
  submitAnswer (state w) (question_at 0 0) 2 w = w.
Proof.
  cbv zeta. split; [reflexivity|].
  apply submitAnswer_revealed_noop. reflexivity.
Defined.

Lemma reset_keeps_reveal_witness :
  let w := run drill [pick 1; next; pick 1; next] initial in
  let lost := submitAnswer (state w) (question_at 0 0) 1 w in
  let again := reset lost in
  showAnswer (state w) = false /\ lives (state w) = 1 /\
  lives (state lost) = 0 /\ showAnswer (state lost) = true /\
  lives (state again) = 3 /\ position again = (0, 0) /\
  showAnswer (state again) = true /\ selectedAnswer (state again) = Some 1.
Proof.
  cbv zeta.
  destruct (reset_keeps_reveal (run drill [pick 1; next; pick 1; next] initial))
    as [_ Hlose].
  destruct (Hlose (question_at 0 0) 1) as (H1 & H2 & H3 & H4 & H5 & H6 & _);
    [reflexivity|reflexivity|vm_compute; discriminate|].
  repeat split; try assumption; reflexivity.
Defined.

Lemma lives_within_bounds_witness :
  let w := run drill [pick 1; next; pick 1; next; pick 1] initial in
  lives (state w) = 0 /\
  phase w = GameOver /\
  shows_game_over drill w the_video /\
  submitAnswer (state w) (question_at 0 0) 0 w = w /\
  run drill [pick 0; next; pick 0] w = w.
Proof.
  cbv zeta.
  destruct (lives_within_bounds drill [pick 1; next; pick 1; next; pick 1]) as [_ Hover].
  destruct Hover as (Hphase & Hscreen & Hsubmit & Hrun); [reflexivity|].
  split; [reflexivity|]. split; [exact Hphase|]. split; [apply Hscreen|].
  split; [apply Hsubmit|]. apply Hrun.
  repeat constructor; discriminate.
Defined.

Lemma advance_progress_witness :
  (let w := run Content.lessons [pick 0] initial in
   position (advance Content.lessons (state w) (lesson_at 0) (Some the_video) w) = (0, 1)) /\
  (let w := run Content.lessons [pick 0; next] initial in
   position (advance (Content.lessons ++ drill) (state w) (lesson_at 0) None w) = (1, 0)) /\
  (let w := run Content.lessons [pick 0; next] initial in
   let w' := advance Content.lessons (state w) (lesson_at 0) None w in
   position w' = (0, 1) /\ navigations w' = ["/"%string] /\ phase w' = Completed /\
   run Content.lessons [next; pick 0] w' = w').
Proof.
  split; [|split].
  - destruct (advance_progress Content.lessons (run Content.lessons [pick 0] initial)
                (lesson_at 0) (Some the_video)) as (Hq & _).
    destruct Hq as (Hpos & _); [vm_compute; reflexivity|]. exact Hpos.
  - destruct (advance_progress (Content.lessons ++ drill)
                (run Content.lessons [pick 0; next] initial)
                (lesson_at 0) None) as (_ & Hl & _).
    destruct Hl as (Hpos & _);
      [vm_compute; discriminate|vm_compute; reflexivity|]. exact Hpos.
  - destruct (advance_progress Content.lessons
                (run Content.lessons [pick 0; next] initial)
                (lesson_at 0) None) as (_ & _ & Hdone & _).
    destruct Hdone as (Hpos & Hnav & Hphase & _ & Hrun);
      [vm_compute; discriminate|vm_compute; discriminate|].
    cbv zeta. split; [exact Hpos|]. split; [exact Hnav|]. split; [exact Hphase|].
    apply Hrun.
Defined.

Lemma appendWord_never_repeats_witness :
  let word := Word.mk 2%nat "私は" 1 in
  let other := Word.mk 0%nat "です。" 3 in
  map Word.addr (orderedWords (state (appendWords [word; word; other; word] initial))) =
    [2%nat; 0%nat] /\
  NoDup (map Word.addr
           (orderedWords (state (appendWords [word; word; other; word] initial)))) /\
  (let w := appendWords [word] initial in appendWord (state w) word w = w).
Proof.
  cbv zeta. split; [reflexivity|]. split.
  - apply (appendWord_never_repeats
             [Word.mk 2%nat "私は" 1; Word.mk 2%nat "私は" 1;
              Word.mk 0%nat "です。" 3; Word.mk 2%nat "私は" 1] initial).
    simpl. constructor.
  - destruct (appendWord_never_repeats []
                (appendWords [Word.mk 2%nat "私は" 1] initial)) as (_ & Hsame & _).
    + simpl. repeat constructor. simpl. tauto.
    + apply Hsame. reflexivity.
Defined.

(** ** Lives, counted along the events *)

Lemma step_lives lessons w i :
  lives (state (step lessons w i)) =
  if reset_requested lessons w i then 3
  else if wrong_answer_submitted lessons w i then lives (state w) - 1
  else lives (state w).
Proof.
  unfold reset_requested, wrong_answer_submitted.
  destruct (mounted w) eqn:Hm.
  2:{ rewrite step_nothing_rendered by (unfold screen; now rewrite Hm).
      destruct (target i), (item lessons (currentLesson (state w))) as [lesson|];
        try reflexivity.
      now destruct (item (Lesson.questions lesson) (currentQuestion (state w))). }
  destruct (item lessons (currentLesson (state w))) as [lesson|] eqn:Hl.
  2:{ rewrite step_nothing_rendered
        by (unfold screen, ComprehensiveStudy; now rewrite Hm, Hl).
      now destruct (target i). }
  destruct (Z.eq_dec (lives (state w)) 0) as [Hz|Hz].
  { rewrite (step_game_over lessons w i lesson Hm Hl Hz), Hz. cbn [Z.eqb andb negb].
    destruct (target i); try reflexivity; try exact Hz.
    destruct (item (Lesson.questions lesson) (currentQuestion (state w)));
      exact Hz. }
  pose proof Hz as Hz'. apply Z.eqb_neq in Hz'. rewrite Hz'. cbn [andb negb].
  destruct (item (Lesson.questions lesson) (currentQuestion (state w)))
    as [question|] eqn:Hq.
  2:{ rewrite step_nothing_rendered
        by (unfold screen, ComprehensiveStudy; now rewrite Hm, Hl, Hq, Hz').
      now destruct (target i). }
  rewrite (step_in_progress lessons w i lesson question Hm Hl Hq Hz).
  unfold button_of.
  destruct (target i) as [| | | |k|k| |].
  - reflexivity.
  - reflexivity.
  - destruct (Question.type question); try reflexivity.
    open_world w. now destruct (paused (video_now i)).
  - now destruct (Question.type question).
  - destruct (Question.type question); cbn [QuestionType_eqb andb]; try reflexivity;
      try (now destruct (showAnswer (state w))).
    destruct (Question.options question) as [opts|];
      [|now destruct (showAnswer (state w))].
    destruct (k <? List.length opts)%nat;
      [|now destruct (showAnswer (state w))].
    unfold click, option_button. cbn [disabled onClick andb].
    destruct (showAnswer (state w)) eqn:Hs; [reflexivity|]. cbn [negb].
    open_world w. now destruct (strict_equals (Z.of_nat k) (Question.correct question)).
  - destruct (Question.type question); try reflexivity.
    destruct (Question.words question) as [ws|]; [|reflexivity].
    destruct (nth_error ws k) as [word|]; [|reflexivity].
    cbn [option_map]. unfold click, word_button. cbn [disabled onClick].
    now destruct (includes (orderedWords (state w)) word).
  - now destruct (negb (showAnswer (state w)) && truthy (Question.hint question)).
  - destruct (showAnswer (state w)); [|reflexivity].
    open_world w.
    destruct (cq <? _); [|destruct (cl <? _)];
      now destruct (Question.type question).
Qed.

Lemma run_lives lessons inputs w n :
  lives (state w) = 3 - n ->
  lives (state (run lessons inputs w)) = 3 - wrong_since_reset lessons inputs w n.
Proof.
  revert w n. induction inputs as [|i inputs IH]; intros w n Hn; [exact Hn|].
  cbn [run fold_left wrong_since_reset]. apply IH. rewrite step_lives.
  destruct (reset_requested lessons w i); [reflexivity|].
  destruct (wrong_answer_submitted lessons w i); lia.
Qed.

(** X1: in every state reached from the initial one, lives is 3 minus the
    number of wrong answers submitted since the last reset (or since the
    start), and that number is never more than 3. *)
Theorem lives_count_wrong_answers lessons (inputs : list Input) :
  let w := run lessons inputs initial in
  let n := wrong_since_reset lessons inputs initial 0 in
  lives (state w) = 3 - n /\ 0 <= n <= 3.
Proof.
  intros w n.
  assert (Hl : lives (state w) = 3 - n) by (apply run_lives; reflexivity).
  destruct (reachable_invariant lessons inputs) as (Hb & _). fold w in Hb.
  split; [exact Hl|lia].
Qed.

Lemma answer_right_or_wrong lessons w i :
  correct_answer_submitted lessons w i = true ->
  wrong_answer_submitted lessons w i = false.
Proof.
  unfold correct_answer_submitted, wrong_answer_submitted.
  destruct (target i); try discriminate.
  destruct (item lessons (currentLesson (state w))) as [lesson|]; [|discriminate].
  destruct (item (Lesson.questions lesson) (currentQuestion (state w)))
    as [question|]; [|discriminate].
  intros H. apply andb_true_iff in H as [_ H]. rewrite H.
  cbn [negb]. apply andb_false_r.
Qed.

Lemma retry_is_no_answer lessons w i :
  reset_requested lessons w i = true ->
  correct_answer_submitted lessons w i = false /\
  wrong_answer_submitted lessons w i = false.
Proof.
  unfold reset_requested, correct_answer_submitted, wrong_answer_submitted.
  destruct (target i); try discriminate. now split.
Qed.

(** X2: whatever the state, what one event does to the tallies is decided
    by which of three things it is.  An effective retry sets score 0 and
    lives 3; an accepted correct answer adds exactly 10 to the score and keeps
    the lives; an accepted wrong answer takes exactly one life and keeps the
    score; an event that is none of the three keeps both.  The three exclude
    each other. *)
Theorem event_changes_one_tally lessons (w : World) (i : Input) :
  let w' := step lessons w i in
  let retried := reset_requested lessons w i in
  let right := correct_answer_submitted lessons w i in
  let wrong := wrong_answer_submitted lessons w i in
  (retried = true -> score (state w') = 0 /\ lives (state w') = 3) /\
  (right = true ->
     score (state w') = score (state w) + 10 /\ lives (state w') = lives (state w)) /\
  (wrong = true ->
     score (state w') = score (state w) /\ lives (state w') = lives (state w) - 1) /\
  (retried = false -> right = false -> wrong = false ->
     score (state w') = score (state w) /\ lives (state w') = lives (state w)) /\
  (retried = true -> right = false /\ wrong = false) /\
  (right = true -> wrong = false).
Proof.
  intros w' retried right wrong. subst w' retried right wrong.
  rewrite step_score, step_lives.
  split; [|split; [|split; [|split; [|split]]]].
  - intros Hr. now rewrite Hr.
  - intros Hc.
    destruct (reset_requested lessons w i) eqn:Hr;
      [destruct (retry_is_no_answer lessons w i Hr); congruence|].
    now rewrite Hc, (answer_right_or_wrong lessons w i Hc).
  - intros Hx.
    destruct (reset_requested lessons w i) eqn:Hr;
      [destruct (retry_is_no_answer lessons w i Hr); congruence|].
    destruct (correct_answer_submitted lessons w i) eqn:Hc;
      [rewrite (answer_right_or_wrong lessons w i Hc) in Hx; discriminate|].
    now rewrite Hx.
  - intros Hr Hc Hx. now rewrite Hr, Hc, Hx.
  - exact (retry_is_no_answer lessons w i).
  - exact (answer_right_or_wrong lessons w i).
Qed.

(** ** Indexing the table *)

Lemma item_Some_range {A : Type} (a : list A) (i : Z) (x : A) :
  item a i = Some x -> 0 <= i < length_of a.
Proof.
  unfold item, length_of. destruct (Z.ltb_spec i 0) as [Hneg|Hpos]; [discriminate|].
  intros H. assert (Hlt : (Z.to_nat i < List.length a)%nat).
  { apply nth_error_Some. rewrite H. discriminate. }
  lia.
Qed.

Lemma item_in_range {A : Type} (a : list A) (i : Z) :
  0 <= i < length_of a -> exists x, item a i = Some x.
Proof.
  unfold item, length_of. intros Hi.
  destruct (Z.ltb_spec i 0) as [Hneg|Hpos]; [lia|].
  destruct (nth_error a (Z.to_nat i)) as [x|] eqn:E; [now exists x|].
  apply nth_error_None in E. lia.
Qed.

Lemma item_In {A : Type} (a : list A) (i : Z) (x : A) :
  item a i = Some x -> In x a.
Proof.
  unfold item. destruct (i <? 0); [discriminate|]. apply nth_error_In.
Qed.

Lemma first_item {A : Type} (a : list A) : a <> [] -> exists x, item a 0 = Some x.
Proof.
  intros Ha. apply item_in_range. unfold length_of.
  destruct a; [contradiction|]. cbn [List.length]. lia.
Qed.

(** ** Selection and reveal go together *)

Lemma transition_selection lessons w w' :
  selection_matches_reveal w -> Transition lessons w w' -> selection_matches_reveal w'.
Proof.
  intros Hinv Ht.
  destruct Ht as [|lesson Hm Hl Hz|lesson question h Hm Hl Hq Hz Hh]; [exact Hinv| |];
    unfold selection_matches_reveal in *.
  - now open_world w.
  - destruct Hh as [|v Ht|Ht|opts k Ht Ho Hk Hs|ws k word Ht Hw Hk Hi|Hs Hh|videoRef Hs Hv].
    + now open_world w.
    + open_world w. now destruct (paused v).
    + now open_world w.
    + open_world w. destruct (strict_equals _ _); split; discriminate.
    + now open_world w.
    + now open_world w.
    + open_world w.
      destruct (cq <? _); [|destruct (cl <? _)]; destruct videoRef; split; reflexivity.
Qed.

(** X3: in every state reached from the initial one a selected answer is
    recorded exactly while the answer is revealed: selectedAnswer is null if
    and only if showAnswer is false. *)
Theorem selection_iff_revealed lessons (inputs : list Input) :
  let w := run lessons inputs initial in
  selectedAnswer (state w) = None <-> showAnswer (state w) = false.
Proof.
  intros w. subst w. change (selection_matches_reveal (run lessons inputs initial)).
  assert (Hgen : forall w, selection_matches_reveal w ->
                           selection_matches_reveal (run lessons inputs w)).
  { induction inputs as [|i inputs IH]; intros w Hw; [exact Hw|].
    cbn [run fold_left]. apply IH.
    apply (transition_selection lessons w); [exact Hw|apply step_transition]. }
  apply Hgen. unfold selection_matches_reveal, initial. cbn. tauto.
Qed.

(** ** Staying inside the table *)

Lemma transition_in_range lessons w w' :
  every_lesson_has_questions lessons ->
  in_range lessons w -> Transition lessons w w' -> in_range lessons w'.
Proof.
  intros [Hne Hall] Hinv Ht.
  destruct Ht as [|lesson Hm Hl Hz|lesson question h Hm Hl Hq Hz Hh]; [exact Hinv| |].
  - destruct (first_item lessons Hne) as [first Hfirst].
    assert (Hq : Lesson.questions first <> []).
    { apply (proj1 (Forall_forall _ lessons) Hall). now apply (item_In lessons 0). }
    destruct (first_item (Lesson.questions first) Hq) as [q Hq0].
    unfold in_range. open_world w. now exists first, q.
  - destruct Hh as [|v Ht|Ht|opts k Ht Ho Hk Hs|ws k word Ht Hw Hk Hi|Hs Hh|videoRef Hs Hv];
      unfold in_range in *.
    + open_world w. now exists lesson, question.
    + open_world w. destruct (paused v); now exists lesson, question.
    + open_world w. now exists lesson, question.
    + open_world w. destruct (strict_equals _ _); now exists lesson, question.
    + open_world w. now exists lesson, question.
    + open_world w. now exists lesson, question.
    + pose proof (item_Some_range _ _ _ Hl) as Hlr.
      pose proof (item_Some_range _ _ _ Hq) as Hqr.
      open_world w.
      destruct (Z.ltb_spec cq (length_of (Lesson.questions lesson) - 1)) as [Hlt|Hge].
      * destruct (item_in_range (Lesson.questions lesson) (cq + 1)) as [q' Hq']; [lia|].
        destruct videoRef; now exists lesson, q'.
      * destruct (Z.ltb_spec cl (length_of lessons - 1)) as [Hlt|Hlast].
        -- destruct (item_in_range lessons (cl + 1)) as [l' Hl']; [lia|].
           assert (Hq' : Lesson.questions l' <> []).
           { apply (proj1 (Forall_forall _ lessons) Hall). now apply (item_In lessons (cl + 1)). }
           destruct (first_item (Lesson.questions l') Hq') as [q' Hq0].
           destruct videoRef; now exists l', q'.
        -- destruct videoRef; now exists lesson, question.
Qed.

Lemma run_in_range lessons inputs w :
  every_lesson_has_questions lessons ->
  in_range lessons w -> in_range lessons (run lessons inputs w).
Proof.
  intros Htable. revert w. induction inputs as [|i inputs IH]; intros w Hw; [exact Hw|].
  cbn [run fold_left]. apply IH.
  apply (transition_in_range lessons w); [exact Htable|exact Hw|apply step_transition].
Qed.

(** X4: on a table with at least one lesson and no lesson without
    questions, both indices stay inside the table along every sequence of
    events from the initial state, so no render ever throws: as long as the
    screen has not been left there is something on it. *)
Theorem indices_stay_in_range lessons (inputs : list Input) :
  every_lesson_has_questions lessons ->
  let w := run lessons inputs initial in
  in_range lessons w /\
  0 <= currentLesson (state w) < length_of lessons /\
  (forall v, mounted w = true -> screen lessons w v <> None).
Proof.
  intros Htable w.
  assert (Hr : in_range lessons w).
  { apply run_in_range; [exact Htable|]. destruct Htable as [Hne Hall].
    destruct (first_item lessons Hne) as [first Hfirst].
    assert (Hq : Lesson.questions first <> []).
    { apply (proj1 (Forall_forall _ lessons) Hall). now apply (item_In lessons 0). }
    destruct (first_item (Lesson.questions first) Hq) as [q Hq0].
    now exists first, q. }
  split; [exact Hr|]. destruct Hr as (lesson & question & Hl & Hq).
  split; [exact (item_Some_range _ _ _ Hl)|].
  intros v Hm. unfold screen, ComprehensiveStudy. rewrite Hm, Hl, Hq.
  destruct (lives (state w) =? 0); discriminate.
Qed.

(** X5: handleNext does not look at the lesson it moves to.  From the last
    question of a lesson that is followed by a lesson without questions,
    advance moves to question 0 of that lesson without navigating, and the
    next render throws (there is no such question to show). *)
Theorem advance_into_empty_lesson lessons (w : World) lesson following videoRef v :
  lives (state w) <> 0 ->
  item lessons (currentLesson (state w)) = Some lesson ->
  ~ currentQuestion (state w) < length_of (Lesson.questions lesson) - 1 ->
  item lessons (currentLesson (state w) + 1) = Some following ->
  Lesson.questions following = [] ->
  let w' := advance lessons (state w) lesson videoRef w in
  position w' = (currentLesson (state w) + 1, 0) /\
  navigations w' = navigations w /\
  ComprehensiveStudy lessons (state w') v = None.
Proof.
  intros Hz Hl Hq Hnext Hempty w'. subst w'.
  pose proof (item_Some_range _ _ _ Hnext) as Hr.
  apply Z.ltb_nlt in Hq. apply Z.eqb_neq in Hz.
  assert (Hlt : (currentLesson (state w) <? length_of lessons - 1) = true)
    by (apply Z.ltb_lt; lia).
  unfold ComprehensiveStudy. open_world w. rewrite Hq, Hlt.
  destruct videoRef; cbn [currentLesson currentQuestion lives];
    rewrite Hnext, Hz, Hempty; repeat split.
Qed.

(** ** Questions without an answer path *)

Lemma dead_end_transition lessons w w' lesson question :
  item lessons (currentLesson (state w)) = Some lesson ->
  item (Lesson.questions lesson) (currentQuestion (state w)) = Some question ->
  Question.type question <> video_choice ->
  showAnswer (state w) = false ->
  lives (state w) <> 0 ->
  Transition lessons w w' ->
  position w' = position w /\
  score (state w') = score (state w) /\
  lives (state w') = lives (state w) /\
  showAnswer (state w') = false /\
  exists more, orderedWords (state w') = orderedWords (state w) ++ more.
Proof.
  intros Hl Hq Ht Hs Hz Hstep.
  destruct Hstep as [|lesson' Hm Hl' Hz'|lesson' question' h Hm Hl' Hq' Hz' Hh].
  - repeat split; try assumption. exists []. now rewrite app_nil_r.
  - contradiction.
  - rewrite Hl in Hl'. injection Hl' as <-. rewrite Hq in Hq'. injection Hq' as <-.
    destruct Hh as [|v Hv|Hv|opts k Hv Ho Hk Hs'|ws k word Hv Hw Hk Hi|Hs' Hh|videoRef Hs' Hv];
      try contradiction; try congruence.
    + open_world w. repeat split; try assumption. exists []. now rewrite app_nil_r.
    + open_world w. repeat split; try assumption. now exists [word].
    + open_world w. repeat split; try assumption. exists []. now rewrite app_nil_r.
Qed.

Lemma dead_end_run lessons inputs w lesson question :
  item lessons (currentLesson (state w)) = Some lesson ->
  item (Lesson.questions lesson) (currentQuestion (state w)) = Some question ->
  Question.type question <> video_choice ->
  showAnswer (state w) = false ->
  lives (state w) <> 0 ->
  let w' := run lessons inputs w in
  position w' = position w /\
  score (state w') = score (state w) /\
  lives (state w') = lives (state w) /\
  showAnswer (state w') = false /\
  exists more, orderedWords (state w') = orderedWords (state w) ++ more.
Proof.
  revert w. induction inputs as [|i inputs IH]; intros w Hl Hq Ht Hs Hz.
  - cbn. repeat split; try assumption. exists []. now rewrite app_nil_r.
  - cbn [run fold_left].
    destruct (dead_end_transition lessons w (step lessons w i) lesson question
                Hl Hq Ht Hs Hz (step_transition lessons w i))
      as (Hp & Hsc & Hlv & Hsh & more & Hmore).
    assert (Hpos : currentLesson (state (step lessons w i)) = currentLesson (state w) /\
                   currentQuestion (state (step lessons w i)) = currentQuestion (state w)).
    { unfold position in Hp. now inversion Hp. }
    destruct Hpos as [Hcl Hcq].
    destruct (IH (step lessons w i)) as (Hp' & Hsc' & Hlv' & Hsh' & more' & Hmore').
    + now rewrite Hcl.
    + now rewrite Hcq.
    + exact Ht.
    + exact Hsh.
    + now rewrite Hlv.
    + cbv zeta. fold (run lessons inputs (step lessons w i)).
      repeat split; try congruence.
      exists (more ++ more'). rewrite Hmore', Hmore. now rewrite app_assoc.
Qed.

(** X6: a question that is not a video-choice one is a dead end.  With its
    answer hidden and lives left, no sequence of events moves the position,
    changes score or lives, or reveals the answer; picked words only
    accumulate.  (The back button still leaves the screen.) *)
Theorem other_questions_are_dead_ends lessons (inputs : list Input) (w : World)
    lesson question :
  item lessons (currentLesson (state w)) = Some lesson ->
  item (Lesson.questions lesson) (currentQuestion (state w)) = Some question ->
  Question.type question <> video_choice ->
  showAnswer (state w) = false ->
  lives (state w) <> 0 ->
  let w' := run lessons inputs w in
  position w' = position w /\
  score (state w') = score (state w) /\
  lives (state w') = lives (state w) /\
  showAnswer (state w') = false /\
  exists more, orderedWords (state w') = orderedWords (state w) ++ more.
Proof.
  exact (dead_end_run lessons inputs w lesson question).
Qed.

(** ** Picked words *)

Lemma transition_picks lessons w w' :
  picking_invariant lessons w -> picks_from_current lessons w ->
  Transition lessons w w' -> picks_from_current lessons w'.
Proof.
  intros Hpick Hinv Ht.
  destruct Ht as [|lesson Hm Hl Hz|lesson question h Hm Hl Hq Hz Hh]; [exact Hinv| |].
  - unfold picks_from_current. open_world w. now left.
  - pose proof (revealed_not_picking lessons w Hpick) as Hrev.
    destruct Hh as [|v Ht|Ht|opts k Ht Ho Hk Hs|ws k word Ht Hw Hk Hi|Hs Hh|videoRef Hs Hv];
      unfold picks_from_current in *.
    + now open_world w.
    + open_world w. now destruct (paused v).
    + now open_world w.
    + open_world w. now destruct (strict_equals _ _).
    + assert (Hold : Forall (fun x => In x ws) (orderedWords (state w))).
      { destruct Hinv as [Hnone|(l & q & ws' & Hl' & Hq' & _ & Hw' & Hall)].
        - rewrite Hnone. constructor.
        - rewrite Hl in Hl'. injection Hl' as <-. rewrite Hq in Hq'. injection Hq' as <-.
          rewrite Hw in Hw'. injection Hw' as <-. exact Hall. }
      open_world w. right. exists lesson, question, ws. repeat split; try assumption.
      apply Forall_app. split; [exact Hold|]. constructor; [|constructor].
      now apply (nth_error_In ws k).
    + now open_world w.
    + specialize (Hrev Hs). open_world w. subst ow.
      destruct (cq <? _); [|destruct (cl <? _)]; destruct videoRef; now left.
Qed.

Lemma reachable_picks lessons inputs :
  picks_from_current lessons (run lessons inputs initial).
Proof.
  assert (Hgen : forall w, session_invariant lessons w -> picking_invariant lessons w ->
                           picks_from_current lessons w ->
                           picks_from_current lessons (run lessons inputs w)).
  { induction inputs as [|i inputs IH]; intros w Hs Hp Hw; [exact Hw|].
    cbn [run fold_left]. apply IH.
    - apply (transition_invariant lessons w); [exact Hs|apply step_transition].
    - apply (transition_picking lessons w); [exact Hs|exact Hp|apply step_transition].
    - apply (transition_picks lessons w); [exact Hp|exact Hw|apply step_transition]. }
  apply Hgen; [apply initial_invariant|apply initial_picking|now left].
Qed.

(** X7: in every state reached from the initial one the picked words are
    words of the current question, which is then a word-order question, and
    there are never more picks than the question has words. *)
Theorem picks_belong_to_current_question lessons (inputs : list Input) :
  let w := run lessons inputs initial in
  orderedWords (state w) = [] \/
  exists question ws,
    current_question lessons (state w) = Some question /\
    Question.type question = word_order /\
    Question.words question = Some ws /\
    Forall (fun word => In word ws) (orderedWords (state w)) /\
    (List.length (orderedWords (state w)) <= List.length ws)%nat.
Proof.
  intros w.
  destruct (reachable_picks lessons inputs)
    as [Hnone|(lesson & question & ws & Hl & Hq & Ht & Hw & Hall)]; [now left|].
  right. exists question, ws. fold w in Hl, Hq, Hall.
  unfold current_question. rewrite Hl. repeat split; try assumption.
  apply NoDup_incl_length.
  - apply (NoDup_map_inv Word.addr). apply (reachable_invariant lessons inputs).
  - intros x Hx. exact (proj1 (Forall_forall _ _) Hall x Hx).
Qed.

(** X8: a pick cannot be undone.  Along every sequence of events from the
    initial state, the picked words of an earlier state are a prefix of the
    picked words of every later state. *)
Theorem picks_are_never_removed lessons (inputs later : list Input) :
  let w := run lessons inputs initial in
  exists more,
    orderedWords (state (run lessons later w)) = orderedWords (state w) ++ more.
Proof.
  intros w.
  destruct (orderedWords (state w)) as [|x rest] eqn:Hw;
    [now exists (orderedWords (state (run lessons later w)))|].
  rewrite <- Hw.
  pose proof (run_picking lessons inputs initial (initial_invariant lessons)
                (initial_picking lessons)) as Hpick.
  fold w in Hpick.
  destruct Hpick as ([Hnone|(lesson & question & Hl & Hq & Ht)] & Hhidden & _);
    [congruence|].
  assert (Hs : showAnswer (state w) = false) by exact (Hhidden lesson question Hl Hq Ht).
  assert (Hz : lives (state w) <> 0).
  { intros Hz. destruct (reachable_invariant lessons inputs) as (_ & Hover & _).
    destruct (Hover Hz) as (_ & Hs' & _). fold w in Hs'. congruence. }
  apply (dead_end_run lessons later w lesson question Hl Hq); try assumption.
  congruence.
Qed.

(** ** The shipped table *)

Lemma shipped_lesson cl lesson :
  item Content.lessons cl = Some lesson -> cl = 0 /\ lesson = lesson_at 0.
Proof.
  intros H. pose proof (item_Some_range _ _ _ H) as Hr.
  assert (Hcl : cl = 0) by (unfold length_of in Hr; cbn in Hr; lia).
  subst cl. split; [reflexivity|]. cbn in H. now injection H as <-.
Qed.

Lemma shipped_question cq question :
  item (Lesson.questions (lesson_at 0)) cq = Some question ->
  (cq = 0 /\ Question.type question = video_choice /\ Question.correct question = Num 0) \/
  (cq = 1 /\ Question.type question = word_order).
Proof.
  intros H. pose proof (item_Some_range _ _ _ H) as Hr.
  assert (Hcq : cq = 0 \/ cq = 1) by (unfold length_of in Hr; cbn in Hr; lia).
  destruct Hcq; subst cq; cbn in H; injection H as <-; [left|right]; repeat split.
Qed.

Lemma transition_shipped w w' :
  shipped_invariant w -> Transition Content.lessons w w' -> shipped_invariant w'.
Proof.
  intros Hinv Ht.
  destruct Ht as [|lesson Hm Hl Hz|lesson question h Hm Hl Hq Hz Hh]; [exact Hinv| |].
  - exfalso. unfold shipped_invariant in Hinv. lia.
  - destruct (shipped_lesson _ _ Hl) as [Hcl ->].
    assert (Hlen : length_of (Lesson.questions (lesson_at 0)) - 1 = 1) by reflexivity.
    destruct (shipped_question _ _ Hq) as [(Hcq & Hty & Hcorrect)|(Hcq & Hty)];
      destruct Hh as [|v Ht|Ht|opts k Ht Ho Hk Hs|ws k word Ht Hw Hk Hi|Hs Hh|videoRef Hs Hv];
      try congruence; unfold shipped_invariant in *.
    + now open_world w.
    + open_world w. now destruct (paused v).
    + now open_world w.
    + open_world w. subst cl cq shown. rewrite Hcorrect. unfold strict_equals.
      destruct (Z.of_nat k =? 0); right; (split; [now left|]); [left|right];
        destruct Hinv as [(_ & _ & -> & ->)|([(_ & E)|(E & _)] & _)];
        try discriminate E; split; reflexivity.
    + now open_world w.
    + unfold handleNext. rewrite Hlen. open_world w. subst cl cq shown. cbn [Z.ltb Z.compare].
      destruct Hinv as [(_ & E & _)|(_ & Htally)]; [discriminate E|].
      destruct videoRef; right; (split; [now right|exact Htally]).
    + now open_world w.
    + now open_world w.
    + now open_world w.
    + exfalso. open_world w. subst cq shown.
      destruct Hinv as [(_ & E & _)|([(E & _)|(_ & E)] & _)]; discriminate E.
Qed.

Lemma reachable_shipped inputs :
  shipped_invariant (run Content.lessons inputs initial).
Proof.
  assert (Hgen : forall w, shipped_invariant w ->
                           shipped_invariant (run Content.lessons inputs w)).
  { induction inputs as [|i inputs IH]; intros w Hw; [exact Hw|].
    cbn [run fold_left]. apply IH.
    apply (transition_shipped w); [exact Hw|apply step_transition]. }
  apply Hgen. left. repeat split.
Qed.

Lemma step_navigations_other lessons w i :
  target i <> BackButton -> target i <> NextButton ->
  navigations (step lessons w i) = navigations w.
Proof.
  intros Hback Hnext.
  destruct (mounted w) eqn:Hm;
    [|now rewrite step_nothing_rendered by (unfold screen; now rewrite Hm)].
  destruct (item lessons (currentLesson (state w))) as [lesson|] eqn:Hl;
    [|now rewrite step_nothing_rendered
        by (unfold screen, ComprehensiveStudy; now rewrite Hm, Hl)].
  destruct (Z.eq_dec (lives (state w)) 0) as [Hz|Hz].
  { rewrite (step_game_over lessons w i lesson Hm Hl Hz).
    now destruct (target i). }
  destruct (item (Lesson.questions lesson) (currentQuestion (state w)))
    as [question|] eqn:Hq.
  2:{ rewrite step_nothing_rendered; [reflexivity|].
      unfold screen, ComprehensiveStudy. rewrite Hm, Hl, Hq.
      apply Z.eqb_neq in Hz. now rewrite Hz. }
  rewrite (step_in_progress lessons w i lesson question Hm Hl Hq Hz).
  unfold button_of.
  destruct (target i) as [| | | |k|k| |]; try contradiction.
  - reflexivity.
  - destruct (Question.type question); try reflexivity.
    open_world w. now destruct (paused (video_now i)).
  - now destruct (Question.type question).
  - destruct (Question.type question); try reflexivity.
    destruct (Question.options question) as [opts|]; [|reflexivity].
    destruct (k <? List.length opts)%nat; [|reflexivity].
    unfold click, option_button. cbn [disabled onClick].
    destruct (showAnswer (state w)); [reflexivity|]. cbn [negb].
    open_world w. now destruct (strict_equals _ _).
  - destruct (Question.type question); try reflexivity.
    destruct (Question.words question) as [ws|]; [|reflexivity].
    destruct (nth_error ws k) as [word|]; [|reflexivity].
    cbn [option_map]. unfold click, word_button. cbn [disabled onClick].
    now destruct (includes (orderedWords (state w)) word).
  - now destruct (negb (showAnswer (state w)) && truthy (Question.hint question)).
Qed.

(** X9: on the shipped lesson table a session can be neither lost nor
    finished.  Along every sequence of events from the initial state lives
    is at least 2, the score is 0 or 10, the position is the first or the
    second question, the answer is only ever revealed on the first question,
    and no event other than a click on the back button ever navigates: the
    next button never reaches the end of the table. *)
Theorem shipped_session_cannot_end (inputs : list Input) :
  let w := run Content.lessons inputs initial in
  2 <= lives (state w) <= 3 /\
  (score (state w) = 0 \/ score (state w) = 10) /\
  (position w = (0, 0) \/ position w = (0, 1) /\ showAnswer (state w) = false) /\
  phase w <> GameOver /\
  (forall i, target i <> BackButton ->
             navigations (step Content.lessons w i) = navigations w).
Proof.
  intros w. pose proof (reachable_shipped inputs) as Hinv. fold w in Hinv.
  assert (Hlives : 2 <= lives (state w) <= 3) by (unfold shipped_invariant in Hinv; lia).
  split; [exact Hlives|]. split; [unfold shipped_invariant in Hinv; tauto|].
  split; [unfold shipped_invariant in Hinv; tauto|]. split.
  - unfold phase. destruct (negb (mounted w)); [discriminate|].
    destruct (Z.eqb_spec (lives (state w)) 0); [lia|discriminate].
  - intros i Hi.
    destruct (match target i with NextButton => true | _ => false end) eqn:Hnext;
      [|apply step_navigations_other; [exact Hi|intros E; rewrite E in Hnext; discriminate]].
    destruct (mounted w) eqn:Hm;
      [|now rewrite step_nothing_rendered by (unfold screen; now rewrite Hm)].
    destruct (item Content.lessons (currentLesson (state w))) as [lesson|] eqn:Hl;
      [|now rewrite step_nothing_rendered
          by (unfold screen, ComprehensiveStudy; now rewrite Hm, Hl)].
    assert (Hz : lives (state w) <> 0) by lia.
    destruct (item (Lesson.questions lesson) (currentQuestion (state w)))
      as [question|] eqn:Hq.
    2:{ rewrite step_nothing_rendered; [reflexivity|].
        unfold screen, ComprehensiveStudy. rewrite Hm, Hl, Hq.
        apply Z.eqb_neq in Hz. now rewrite Hz. }
    rewrite (step_in_progress Content.lessons w i lesson question Hm Hl Hq Hz).
    destruct (target i); try discriminate Hnext. cbn [button_of].
    destruct (showAnswer (state w)) eqn:Hs; [|reflexivity].
    destruct (shipped_lesson _ _ Hl) as [Hcl ->].
    assert (Hcq : currentQuestion (state w) = 0).
    { unfold shipped_invariant, position in Hinv.
      destruct Hinv as [(_ & E & _)|([(E & _)|(_ & E)] & _)]; congruence. }
    assert (Hlen : length_of (Lesson.questions (lesson_at 0)) - 1 = 1) by reflexivity.
    unfold click, next_button. cbn [disabled onClick]. unfold handleNext. rewrite Hlen, Hcq.
    cbn [Z.ltb Z.compare]. open_world w.
    now destruct (Question.type question).
Qed.

(** ** The controls beside the answer *)

Lemma current_question_render lessons w v :
  mounted w = true -> lives (state w) <> 0 ->
  forall question, current_question lessons (state w) = Some question ->
  exists lesson,
    item lessons (currentLesson (state w)) = Some lesson /\
    item (Lesson.questions lesson) (currentQuestion (state w)) = Some question /\
    forall c,
      step lessons w (mkInput c v) =
      match button_of lessons (state w) lesson question
              (match Question.type question with
               | video_choice => Some v
               | _ => None
               end) c with
      | Some b => click b w
      | None => w
      end.
Proof.
  intros Hm Hz question Hq. unfold current_question in Hq.
  destruct (item lessons (currentLesson (state w))) as [lesson|] eqn:Hl; [|discriminate].
  exists lesson. repeat split; try assumption.
  intros c. exact (step_in_progress lessons w (mkInput c v) lesson question Hm Hl Hq Hz).
Qed.

Lemma not_in_progress_step lessons w c v :
  c <> RetryButton ->
  mounted w && negb (lives (state w) =? 0) = false \/
  current_question lessons (state w) = None ->
  step lessons w (mkInput c v) = w.
Proof.
  intros Hc Hno.
  destruct (mounted w) eqn:Hm;
    [|now rewrite step_nothing_rendered by (unfold screen; now rewrite Hm)].
  unfold current_question in Hno.
  destruct (item lessons (currentLesson (state w))) as [lesson|] eqn:Hl;
    [|now rewrite step_nothing_rendered
        by (unfold screen, ComprehensiveStudy; now rewrite Hm, Hl)].
  destruct (Z.eqb_spec (lives (state w)) 0) as [Hz|Hz].
  - rewrite (step_game_over lessons w _ lesson Hm Hl Hz). cbn [target].
    destruct c; try reflexivity. contradiction.
  - destruct Hno as [Hno|Hno]; [discriminate Hno|].
    rewrite step_nothing_rendered; [reflexivity|].
    unfold screen, ComprehensiveStudy. rewrite Hm, Hl, Hno.
    apply Z.eqb_neq in Hz. now rewrite Hz.
Qed.

(** X10: the play overlay and the end of playback.  While the video of a
    video-choice question is on the screen, a click on the overlay sends one
    command to the element, play if it was paused and pause otherwise, and
    sets isPlaying to true exactly if it was paused; the end of playback sets
    isPlaying to false and sends nothing.  Neither changes anything else, and
    where no video is on the screen (another question type, game over, an
    index outside the table, the screen left) both do nothing. *)
Theorem video_controls lessons (w : World) (v : Video) :
  let clicked := step lessons w (mkInput VideoButton v) in
  let ended := step lessons w (mkInput VideoEnded v) in
  if video_on_screen lessons w then
    isPlaying (state clicked) = paused v /\
    media clicked = media w ++ [if paused v then Play else Pause] /\
    navigations clicked = navigations w /\
    same_but_playing (state clicked) (state w) /\
    isPlaying (state ended) = false /\
    media ended = media w /\
    navigations ended = navigations w /\
    same_but_playing (state ended) (state w)
  else
    clicked = w /\ ended = w.
Proof.
  intros clicked ended. subst clicked ended. unfold video_on_screen.
  destruct (mounted w && negb (lives (state w) =? 0)) eqn:Hon.
  2:{ cbn [andb]. split; apply not_in_progress_step; try discriminate; now left. }
  destruct (current_question lessons (state w)) as [question|] eqn:Hq.
  2:{ cbn [andb]. split; apply not_in_progress_step; try discriminate; now right. }
  apply andb_true_iff in Hon as [Hm Hz]. apply negb_true_iff, Z.eqb_neq in Hz.
  destruct (current_question_render lessons w v Hm Hz question Hq) as (lesson & _ & _ & Hstep).
  rewrite !Hstep. cbn [andb button_of].
  destruct (Question.type question); cbn [QuestionType_eqb]; try (split; reflexivity).
  unfold same_but_playing. open_world w. destruct (paused v); repeat split.
Qed.

(** X11: the hint button.  It is on the screen only in progress, while the
    answer is hidden and the question has a non-empty hint; a click then sets
    showHint to true and changes nothing else (no score, life or position is
    spent), and a second click changes nothing more.  Without a hint, with an
    empty hint, or once the answer is revealed, a hint click does nothing. *)
Theorem hint_button_click lessons (w : World) (v : Video) :
  let w' := step lessons w (mkInput HintButton v) in
  if hint_on_screen lessons w then
    showHint (state w') = true /\
    same_but_hint (state w') (state w) /\
    navigations w' = navigations w /\
    media w' = media w /\
    step lessons w' (mkInput HintButton v) = w'
  else
    w' = w.
Proof.
  intros w'. subst w'. unfold hint_on_screen.
  destruct (mounted w && negb (lives (state w) =? 0)) eqn:Hon.
  2:{ cbn [andb]. apply not_in_progress_step; try discriminate; now left. }
  destruct (current_question lessons (state w)) as [question|] eqn:Hq.
  2:{ cbn [andb]. apply not_in_progress_step; try discriminate; now right. }
  apply andb_true_iff in Hon as [Hm Hz]. apply negb_true_iff, Z.eqb_neq in Hz.
  destruct (current_question_render lessons w v Hm Hz question Hq) as (lesson & _ & _ & Hstep).
  rewrite Hstep. cbn [andb button_of].
  destruct (negb (showAnswer (state w)) && truthy (Question.hint question)) eqn:Hh;
    [|reflexivity].
  assert (Hm' : mounted (click hint_button w) = true) by (now open_world w).
  assert (Hz' : lives (state (click hint_button w)) <> 0) by (now open_world w).
  assert (Hq' : current_question lessons (state (click hint_button w)) = Some question)
    by (unfold current_question in *; now open_world w).
  destruct (current_question_render lessons _ v Hm' Hz' question Hq')
    as (lesson' & _ & _ & Hstep').
  rewrite Hstep'. cbn [button_of].
  assert (Hh' : negb (showAnswer (state (click hint_button w))) &&
                truthy (Question.hint question) = true) by (now open_world w).
  rewrite Hh'. unfold same_but_hint. open_world w. repeat split.
Qed.

(** X12: the back button.  In progress a click requests exactly one
    navigation, to the home path, and leaves the session state as it is;
    after it nothing is rendered and no event has any effect.  The game-over
    screen has no back button: there a back click does nothing. *)
Theorem back_button_click lessons (w : World) (v : Video) :
  let w' := step lessons w (mkInput BackButton v) in
  if in_progress lessons w then
    state w' = state w /\
    navigations w' = ["/"%string] /\
    media w' = media w /\
    (forall v', screen lessons w' v' = None) /\
    (forall inputs, run lessons inputs w' = w')
  else
    w' = w.
Proof.
  intros w'. subst w'. unfold in_progress.
  destruct (mounted w && negb (lives (state w) =? 0)) eqn:Hon.
  2:{ cbn [andb]. apply not_in_progress_step; try discriminate; now left. }
  destruct (current_question lessons (state w)) as [question|] eqn:Hq.
  2:{ cbn [andb]. apply not_in_progress_step; try discriminate; now right. }
  apply andb_true_iff in Hon as [Hm Hz]. apply negb_true_iff, Z.eqb_neq in Hz.
  destruct (current_question_render lessons w v Hm Hz question Hq) as (lesson & _ & _ & Hstep).
  rewrite Hstep. cbn [andb button_of].
  pose proof (mounted_navigations w Hm) as Hn.
  assert (Hgone : mounted (click back_button w) = false).
  { unfold mounted. open_world w. now subst nav. }
  split; [now open_world w|]. split; [open_world w; now subst nav|].
  split; [now open_world w|]. exact (unmounted_frozen lessons _ Hgone).
Qed.

(** ** Closures of one render *)

(** X13: the handlers write values computed from the render they belong
    to, so running the same closure twice is the same as running it once: a
    doubled option click takes at most one life or adds 10 once, a doubled
    word click appends the word once, a doubled retry is one retry, and a
    doubled next moves one question on (only its navigation and media
    commands are issued twice). *)
Theorem same_render_closures_idempotent lessons (r : State) (w : World)
    question index word lesson videoRef :
  let answer := onClick (option_button r question index) in
  let append := onClick (word_button r word) in
  let again := onClick retry_button in
  let move := onClick (next_button lessons r lesson videoRef) in
  answer (answer w) = answer w /\
  append (append w) = append w /\
  again (again w) = again w /\
  state (move (move w)) = state (move w).
Proof.
  cbv zeta. destruct r as [rl rq rsel rshown rlv rhinted rsc row rplaying].
  split; [|split; [|split]].
  - open_world w. destruct rshown; [reflexivity|].
    now destruct (strict_equals index (Question.correct question)).
  - now open_world w.
  - now open_world w.
  - open_world w.
    destruct (rq <? _); [|destruct (rl <? _)]; now destruct videoRef.
Qed.

(** ** What the render shows *)

(** X14: in every state reached from the initial one the hearts display
    shows the lives: of the three hearts the first [lives] are filled and
    the others are not. *)
Theorem hearts_show_lives lessons (inputs : list Input) :
  let w := run lessons inputs initial in
  hearts (state w) =
  repeat true (Z.to_nat (lives (state w))) ++
  repeat false (3 - Z.to_nat (lives (state w))).
Proof.
  intros w. destruct (reachable_invariant lessons inputs) as (Hb & _). fold w in Hb.
  unfold hearts, map_indexed. cbn [map_from].
  assert (Hcases : lives (state w) = 0 \/ lives (state w) = 1 \/
                   lives (state w) = 2 \/ lives (state w) = 3) by lia.
  destruct Hcases as [H|[H|[H|H]]]; rewrite H; reflexivity.
Qed.

(** X15: what an accepted answer looks like.  After a click on option [k]
    of a video-choice question whose answer was hidden, the blank of the
    sentence shows the text of option [k], that option is green if it is the
    correct one and red if not, every other option is green if it is the
    correct one and plain otherwise, all options are disabled, and the
    position has not moved. *)
Theorem accepted_answer_display lessons (w : World) (v : Video) (k : nat)
    question opts text :
  mounted w = true ->
  lives (state w) <> 0 ->
  current_question lessons (state w) = Some question ->
  Question.type question = video_choice ->
  Question.options question = Some opts ->
  nth_error opts k = Some text ->
  showAnswer (state w) = false ->
  let w' := step lessons w (mkInput (OptionButton k) v) in
  blank (state w') question = Some text /\
  option_style (state w') question (Z.of_nat k) =
    (if strict_equals (Z.of_nat k) (Question.correct question) then Green else Red) /\
  (forall j, j <> Z.of_nat k ->
     option_style (state w') question j =
       if strict_equals j (Question.correct question) then Green else Plain) /\
  (forall j, disabled (option_button (state w') question j) = true) /\
  position w' = position w.
Proof.
  intros Hm Hz Hq Ht Ho Hk Hs w'. subst w'.
  destruct (current_question_render lessons w v Hm Hz question Hq) as (lesson & _ & _ & Hstep).
  rewrite Hstep. cbn [button_of]. rewrite Ht, Ho.
  assert (Hlt : (k <? List.length opts)%nat = true).
  { apply Nat.ltb_lt, nth_error_Some. rewrite Hk. discriminate. }
  rewrite Hlt. unfold blank, option_style, item. rewrite Ho.
  open_world w. subst shown. cbn [negb].
  assert (Hnonneg : (Z.of_nat k <? 0) = false) by (apply Z.ltb_ge; lia).
  destruct (strict_equals (Z.of_nat k) (Question.correct question)) eqn:Hc;
    cbn [selectedAnswer showAnswer]; rewrite Hnonneg, Nat2Z.id, Hk, ?Hc, ?Z.eqb_refl;
    repeat split; intros j Hj;
    (destruct (strict_equals j (Question.correct question)); [reflexivity|]);
    apply Z.eqb_neq in Hj; now rewrite Hj.
Qed.

(** ** Progress *)

(** X16: whatever the state, an event never moves the position backwards
    except by the retry of a lost session: the position after the event is
    the one before, or a lexicographically later one, or (0, 0) from a state
    with no lives left. *)
Theorem position_only_moves_forward lessons (w : World) (i : Input) :
  let w' := step lessons w i in
  position w' = position w \/
  lex_lt (position w) (position w') \/
  (lives (state w) = 0 /\ position w' = (0, 0)).
Proof.
  intros w'. subst w'.
  destruct (step_transition lessons w i)
    as [|lesson Hm Hl Hz|lesson question h Hm Hl Hq Hz Hh]; [now left| |].
  - right. right. split; [exact Hz|]. now open_world w.
  - destruct Hh as [|v Ht|Ht|opts k Ht Ho Hk Hs|ws k word Ht Hw Hk Hi|Hs Hh|videoRef Hs Hv].
    + left. now open_world w.
    + left. open_world w. now destruct (paused v).
    + left. now open_world w.
    + left. open_world w. now destruct (strict_equals _ _).
    + left. now open_world w.
    + left. now open_world w.
    + unfold lex_lt. open_world w.
      destruct (Z.ltb_spec cq (length_of (Lesson.questions lesson) - 1));
        [|destruct (Z.ltb_spec cl (length_of lessons - 1))];
        destruct videoRef; cbn [fst snd]; try (now left); right; left; lia.
Qed.

(** ** One answer per question *)

Lemma count_questions_nonneg table : 0 <= count_questions table.
Proof.
  induction table as [|lesson table IH]; cbn [count_questions fold_right]; [lia|].
  fold (count_questions table). unfold length_of. lia.
Qed.

Lemma count_questions_app a b :
  count_questions (a ++ b) = count_questions a + count_questions b.
Proof.
  induction a as [|lesson a IH]; cbn [app count_questions fold_right]; [reflexivity|].
  fold (count_questions (a ++ b)) (count_questions a). lia.
Qed.

Lemma firstn_next {A : Type} (l : list A) (n : nat) (x : A) :
  nth_error l n = Some x -> firstn (S n) l = firstn n l ++ [x].
Proof.
  revert n. induction l as [|y l IH]; intros [|n] H; try discriminate.
  - cbn in H. injection H as ->. reflexivity.
  - cbn [firstn app]. f_equal. now apply IH.
Qed.

Lemma count_before_next lessons cl lesson :
  item lessons cl = Some lesson ->
  count_questions (firstn (Z.to_nat (cl + 1)) lessons) =
  count_questions (firstn (Z.to_nat cl) lessons) + length_of (Lesson.questions lesson).
Proof.
  intros H. pose proof (item_Some_range _ _ _ H) as Hr. unfold item in H.
  destruct (cl <? 0); [discriminate|].
  replace (Z.to_nat (cl + 1)) with (S (Z.to_nat cl)) by lia.
  rewrite (firstn_next lessons _ lesson H), count_questions_app.
  cbn [count_questions fold_right]. lia.
Qed.

Lemma count_before_total lessons n :
  count_questions (firstn n lessons) <= count_questions lessons.
Proof.
  rewrite <- (firstn_skipn n lessons) at 2. rewrite count_questions_app.
  pose proof (count_questions_nonneg (skipn n lessons)). lia.
Qed.

Lemma transition_answers lessons w w' :
  answers_invariant lessons w -> Transition lessons w w' -> answers_invariant lessons w'.
Proof.
  intros [Htotal Hseen] Ht.
  destruct Ht as [|lesson Hm Hl Hz|lesson question h Hm Hl Hq Hz Hh]; [now split| |].
  - pose proof (count_questions_nonneg lessons) as Hn.
    unfold answers_invariant, answers_given, questions_seen in *.
    open_world w. cbn [Z.to_nat firstn count_questions fold_right].
    split; [lia|]. intros _. destruct shown; lia.
  - specialize (Hseen Hm).
    pose proof (item_Some_range _ _ _ Hl) as Hlr.
    pose proof (item_Some_range _ _ _ Hq) as Hqr.
    pose proof (count_before_next lessons _ lesson Hl) as Hnext.
    pose proof (count_before_total lessons (Z.to_nat (currentLesson (state w) + 1))) as Hle.
    destruct Hh as [|v Ht|Ht|opts k Ht Ho Hk Hs|ws k word Ht Hw Hk Hi|Hs Hh|videoRef Hs Hv];
      unfold answers_invariant, answers_given, questions_seen, mounted in *.
    + open_world w. split; [exact Htotal|]. destruct nav; discriminate.
    + open_world w. destruct (paused v); split; auto.
    + open_world w. split; auto.
    + open_world w. subst shown.
      destruct (strict_equals _ _); (split; [lia|intros _; lia]).
    + open_world w. split; auto.
    + open_world w. split; auto.
    + open_world w. subst shown.
      destruct (Z.ltb_spec cq (length_of (Lesson.questions lesson) - 1));
        [|destruct (Z.ltb_spec cl (length_of lessons - 1))];
        destruct videoRef; (split; [exact Htotal|]);
        first [intros _; lia | destruct nav; discriminate].
Qed.

Lemma reachable_answers lessons inputs :
  answers_invariant lessons (run lessons inputs initial).
Proof.
  assert (Hgen : forall w, answers_invariant lessons w ->
                           answers_invariant lessons (run lessons inputs w)).
  { induction inputs as [|i inputs IH]; intros w Hw; [exact Hw|].
    cbn [run fold_left]. apply IH.
    apply (transition_answers lessons w); [exact Hw|apply step_transition]. }
  apply Hgen. pose proof (count_questions_nonneg lessons).
  unfold answers_invariant, answers_given, questions_seen, initial, mounted.
  cbn [state score lives currentLesson currentQuestion showAnswer navigations
       Z.to_nat firstn count_questions fold_right].
  split; [lia|intros _; lia].
Qed.

(** X17: a question is answered at most once between two retries.  In every
    state reached from the initial one, the answers accepted since the last
    retry (10 points for each right one, one life for each wrong one) are at
    most as many as the questions the session has been through, hence at most
    as many as the table has questions: the score never exceeds 10 points
    per question of the table. *)
Theorem one_answer_per_question lessons (inputs : list Input) :
  let w := run lessons inputs initial in
  score (state w) + 10 * (3 - lives (state w)) <= 10 * count_questions lessons /\
  0 <= score (state w) <= 10 * count_questions lessons.
Proof.
  intros w.
  destruct (reachable_answers lessons inputs) as [Htotal _].
  fold w in Htotal. unfold answers_given in Htotal.
  destruct (reachable_invariant lessons inputs) as (Hb & _). fold w in Hb.
  assert (Hscore : 0 <= score (state w)).
  { pose proof (run_score lessons inputs initial 0 eq_refl) as Hs.
    pose proof (correct_since_reset_nonneg lessons inputs initial 0 (Z.le_refl 0)).
    fold w in Hs. lia. }
  split; [exact Htotal|lia].
Qed.

(** ** Advancing, as the screen offers it *)

(** C3: in every state reached from the initial one in which advance is on
    offer, that is with the answer revealed (the next button is rendered only
    then), calling advance resets selectedAnswer to null, showAnswer, showHint
    and isPlaying to false, and leaves orderedWords the empty sequence, on
    the last question as well as before it; so does a click on the next
    button of the in-progress render.  handleNext has no write to orderedWords
    of its own: it is empty afterwards because no word can be picked where
    advance is offered. *)
Theorem advance_resets_question_state lessons (inputs : list Input) lesson videoRef :
  let w := run lessons inputs initial in
  showAnswer (state w) = true ->
  let w' := advance lessons (state w) lesson videoRef w in
  (selectedAnswer (state w') = None /\
   showAnswer (state w') = false /\
   showHint (state w') = false /\
   isPlaying (state w') = false /\
   orderedWords (state w') = []) /\
  (forall v, in_progress lessons w = true ->
     let clicked := step lessons w (mkInput NextButton v) in
     selectedAnswer (state clicked) = None /\
     showAnswer (state clicked) = false /\
     showHint (state clicked) = false /\
     isPlaying (state clicked) = false /\
     orderedWords (state clicked) = []).
Proof.
  intros w Hs w'.
  pose proof (revealed_nothing_picked lessons inputs) as Hnone.
  fold w in Hnone. specialize (Hnone Hs).
  assert (Hany : forall l r,
            let a := advance lessons (state w) l r w in
            selectedAnswer (state a) = None /\
            showAnswer (state a) = false /\
            showHint (state a) = false /\
            isPlaying (state a) = false /\
            orderedWords (state a) = []).
  { intros l r a. subst a.
    destruct (advance_frame lessons w l r) as (H1 & H2 & H3 & H4 & H5).
    rewrite Hnone in H5. repeat split; assumption. }
  split; [exact (Hany lesson videoRef)|].
  intros v Hin clicked. subst clicked. unfold in_progress in Hin.
  destruct (current_question lessons (state w)) as [question|] eqn:Hq;
    [|rewrite andb_false_r in Hin; discriminate Hin].
  rewrite andb_true_r in Hin. apply andb_true_iff in Hin as [Hm Hz].
  apply negb_true_iff, Z.eqb_neq in Hz.
  destruct (current_question_render lessons w v Hm Hz question Hq)
    as (lesson' & _ & _ & Hstep).
  rewrite Hstep. cbn [button_of]. rewrite Hs.
  exact (Hany lesson' _).
Qed.

Lemma advance_resets_question_state_witness :
  let w := run Content.lessons [mkInput HintButton the_video; pick 0] initial in
  let w' := advance Content.lessons (state w) (lesson_at 0) (Some the_video) w in
  let clicked := step Content.lessons w next in
  (showAnswer (state w) = true /\ showHint (state w) = true /\
   selectedAnswer (state w) = Some 0) /\
  (selectedAnswer (state w') = None /\ showAnswer (state w') = false /\
   showHint (state w') = false /\ isPlaying (state w') = false /\
   orderedWords (state w') = []) /\
  (position clicked = (0, 1) /\ selectedAnswer (state clicked) = None /\
   showAnswer (state clicked) = false /\ showHint (state clicked) = false /\
   orderedWords (state clicked) = []).
Proof.
  cbv zeta.
  destruct (advance_resets_question_state Content.lessons
              [mkInput HintButton the_video; pick 0] (lesson_at 0) (Some the_video))
    as [Hcall Hclick]; [reflexivity|].
  split; [repeat split|]. split; [exact Hcall|].
  destruct (Hclick the_video) as (H1 & H2 & H3 & _ & H5); [reflexivity|].
  repeat split; assumption.
Defined.

Lemma event_changes_one_tally_witness :
  let lost := run drill [pick 1; next; pick 1; next; pick 1] initial in
  (score (state (step drill initial (pick 0))) = 10 /\
   lives (state (step drill initial (pick 0))) = 3) /\
  (score (state (step drill initial (pick 1))) = 0 /\
   lives (state (step drill initial (pick 1))) = 2) /\
  (lives (state lost) = 0 /\
   score (state (step drill lost retry)) = 0 /\
   lives (state (step drill lost retry)) = 3) /\
  (score (state (step drill lost (pick 0))) = 0 /\
   lives (state (step drill lost (pick 0))) = 0).
Proof.
  cbv zeta. split; [|split; [|split]].
  - destruct (event_changes_one_tally drill initial (pick 0)) as (_ & Hright & _).
    exact (Hright eq_refl).
  - destruct (event_changes_one_tally drill initial (pick 1)) as (_ & _ & Hwrong & _).
    exact (Hwrong eq_refl).
  - split; [reflexivity|].
    destruct (event_changes_one_tally drill
                (run drill [pick 1; next; pick 1; next; pick 1] initial) retry)
      as (Hretry & _).
    exact (Hretry eq_refl).
  - destruct (event_changes_one_tally drill
                (run drill [pick 1; next; pick 1; next; pick 1] initial) (pick 0))
      as (_ & _ & _ & Hnone & _).
    exact (Hnone eq_refl eq_refl eq_refl).
Defined.

(** ** The further properties at work on concrete sessions *)

Lemma indices_stay_in_range_witness :
  every_lesson_has_questions Content.lessons /\
  (let w := run Content.lessons [pick 0; next; pick 0] initial in
   in_range Content.lessons w /\
   0 <= currentLesson (state w) < length_of Content.lessons /\
   screen Content.lessons w the_video <> None).
Proof.
  assert (Htable : every_lesson_has_questions Content.lessons).
  { split; [discriminate|]. repeat constructor. discriminate. }
  split; [exact Htable|]. cbv zeta.
  destruct (indices_stay_in_range Content.lessons [pick 0; next; pick 0] Htable)
    as (Hr & Hb & Hscreen).
  split; [exact Hr|]. split; [exact Hb|]. apply Hscreen. reflexivity.
Defined.

Lemma advance_into_empty_lesson_witness :
  let w := run drill_then_empty [pick 0; next; pick 0; next; pick 0] initial in
  let w' := advance drill_then_empty (state w)
              (nth 0 drill_then_empty (lesson_at 0)) (Some the_video) w in
  position w = (0, 2) /\
  position w' = (1, 0) /\
  navigations w' = [] /\
  ComprehensiveStudy drill_then_empty (state w') the_video = None.
Proof.
  cbv zeta. split; [reflexivity|].
  destruct (advance_into_empty_lesson drill_then_empty
              (run drill_then_empty [pick 0; next; pick 0; next; pick 0] initial)
              (nth 0 drill_then_empty (lesson_at 0)) (Lesson.mk 2 "" [])
              (Some the_video) the_video)
    as (Hpos & Hnav & Hthrows).
  - vm_compute. discriminate.
  - reflexivity.
  - vm_compute. discriminate.
  - reflexivity.
  - reflexivity.
  - split; [exact Hpos|]. split; [exact Hnav|exact Hthrows].
Defined.

Lemma other_questions_are_dead_ends_witness :
  let w := run Content.lessons [pick 0; next] initial in
  let w' := run Content.lessons
              [mkInput (WordButton 2) the_video; next; pick 0;
               mkInput HintButton the_video; retry] w in
  position w = (0, 1) /\
  position w' = (0, 1) /\
  score (state w') = 10 /\
  lives (state w') = 3 /\
  showAnswer (state w') = false.
Proof.
  cbv zeta. split; [reflexivity|].
  destruct (other_questions_are_dead_ends Content.lessons
              [mkInput (WordButton 2) the_video; next; pick 0;
               mkInput HintButton the_video; retry]
              (run Content.lessons [pick 0; next] initial)
              (lesson_at 0) (question_at 0 1))
    as (Hpos & Hscore & Hlives & Hshown & _).
  - reflexivity.
  - reflexivity.
  - vm_compute. discriminate.
  - reflexivity.
  - vm_compute. discriminate.
  - split; [exact Hpos|]. split; [exact Hscore|]. split; [exact Hlives|exact Hshown].
Defined.

Lemma accepted_answer_display_witness :
  let w' := step Content.lessons initial (pick 2) in
  blank (state w') (question_at 0 0) = Some "佐藤"%string /\
  option_style (state w') (question_at 0 0) 2 = Red /\
  option_style (state w') (question_at 0 0) 0 = Green /\
  option_style (state w') (question_at 0 0) 1 = Plain.
Proof.
  cbv zeta.
  destruct (accepted_answer_display Content.lessons initial the_video 2
              (question_at 0 0) ["田中"; "山田"; "佐藤"; "鈴木"]%string "佐藤"%string)
    as (Hblank & Hown & Hothers & _); try reflexivity.
  - vm_compute. discriminate.
  - split; [exact Hblank|]. split; [exact Hown|].
    split; [apply (Hothers 0)|apply (Hothers 1)]; discriminate.
Defined.
